(** * smart-doc: the retrieval core of [model.py]

    A shallow embedding of the chunker ([chunk_text]), the hybrid ranker
    ([is_definition_chunk], [build_index], [search]) and the page locator
    ([estimate_page]), followed by the properties established for them.

    Conventions.
    - A Python [str] is a list of Unicode code points ([pystr]).
    - Python integers are [Z]; slices and subscripts follow Python's rules
      for negative and out-of-range indices.
    - A raised exception is the [Raise] case of [outcome]; [int] of more
      than 4300 digits raises, as the interpreter does by default, and so
      do the PDF library and the constructor of the BM25 index where
      theirs do.
    - The [while] loop of [chunk_text] is run with fuel: [None] means the
      fuel ran out before the loop condition became false.
    - Scores are exact rationals ([Q]). The facts proved about them are
      order facts (a threshold, a clamp, a weighted sum of bounded terms).
    - What the code obtains from outside the repository (the embedding
      model, [np.linalg.norm], [np.argsort], the BM25 scorer, Unicode case
      mapping and digit tables) is an interface: a type class whose fields
      the definitions take as parameters. *)

From Stdlib Require Import ZArith NArith QArith Qminmax Qabs List String Ascii Bool.
From Stdlib Require Import Lia Lqa Permutation DecimalNat Sorted.
Import ListNotations.

Local Open Scope Z_scope.

(* ===================================================================== *)
(** * Part I: the program                                                 *)
(* ===================================================================== *)

(** ** Exceptions *)

(** The exceptions the program meets, all of them subclasses of
    [Exception]: the built-in ones it raises or provokes, and
    [LibraryError] for an exception class of a library (such as those
    [pdfplumber] raises on a damaged file). *)
Inductive exn : Type :=
| ValueError (msg : string)
| IndexError (msg : string)
| ZeroDivisionError (msg : string)
| LibraryError (msg : string).

Inductive outcome (A : Type) : Type :=
| Ok (a : A)
| Raise (e : exn).

Arguments Ok {A} a.
Arguments Raise {A} e.

Definition bind {A B : Type} (m : outcome A) (f : A -> outcome B) : outcome B :=
  match m with
  | Ok a => f a
  | Raise e => Raise e
  end.

Notation "x <- m ;; f" := (bind m (fun x => f))
  (at level 61, m at next level, right associativity).

(** ** Python strings and sequences *)

Module PyStr.

Definition char : Type := N.
Definition pystr : Type := list char.

(** An ASCII literal as a Python string. *)
Definition str (s : string) : pystr :=
  map N_of_ascii (list_ascii_of_string s).

Definition len {A : Type} (s : list A) : Z := Z.of_nat (List.length s).

(** [str.isspace] for one character, which is also what [\s] matches in a
    [str] pattern. *)
Definition isspace (c : char) : bool :=
  (((9 <=? c) && (c <=? 13)) || ((28 <=? c) && (c <=? 32))
   || (c =? 133) || (c =? 160) || (c =? 5760)
   || ((8192 <=? c) && (c <=? 8202))
   || (c =? 8232) || (c =? 8233) || (c =? 8239) || (c =? 8287)
   || (c =? 12288))%N.

Fixpoint lstrip (s : pystr) : pystr :=
  match s with
  | [] => []
  | c :: rest => if isspace c then lstrip rest else s
  end.

Definition rstrip (s : pystr) : pystr := rev (lstrip (rev s)).

(** [s.strip()] *)
Definition strip (s : pystr) : pystr := rstrip (lstrip s).

(** [not s]: the empty string is falsy. *)
Definition falsy {A : Type} (s : list A) : bool :=
  match s with
  | [] => true
  | _ :: _ => false
  end.

(** [re.sub(r"\s+", " ", s)]: every maximal run of whitespace becomes one
    space. [in_run] tells that the previous character was whitespace. *)
Fixpoint sub_ws (in_run : bool) (s : pystr) : pystr :=
  match s with
  | [] => []
  | c :: rest =>
      if isspace c
      then (if in_run then sub_ws true rest else 32%N :: sub_ws true rest)
      else c :: sub_ws false rest
  end.

(** How Python brings a slice bound into [0 .. n]. *)
Definition clamp_index (n i : Z) : Z :=
  if i <? 0 then Z.max (i + n) 0 else Z.min i n.

(** [s[start:stop]] *)
Definition slice {A : Type} (s : list A) (start stop : Z) : list A :=
  let lo := clamp_index (len s) start in
  let hi := clamp_index (len s) stop in
  firstn (Z.to_nat (hi - lo)) (skipn (Z.to_nat lo) s).

(** [s[i]], which raises [IndexError] outside [-len(s) .. len(s) - 1]. *)
Definition getitem {A : Type} (s : list A) (i : Z) : outcome A :=
  let j := if i <? 0 then i + len s else i in
  if (0 <=? j) && (j <? len s)
  then match nth_error s (Z.to_nat j) with
       | Some a => Ok a
       | None => Raise (IndexError "index out of range")
       end
  else Raise (IndexError "index out of range").

Fixpoint startswith (p s : pystr) : bool :=
  match p, s with
  | [], _ => true
  | _ :: _, [] => false
  | a :: p', b :: s' => (a =? b)%N && startswith p' s'
  end.

Fixpoint find_from (sub s : pystr) (i : Z) {struct s} : Z :=
  if startswith sub s then i
  else match s with
       | [] => -1
       | _ :: s' => find_from sub s' (i + 1)
       end.

(** [s.find(sub)]: offset of the first occurrence, or [-1]. *)
Definition find (s sub : pystr) : Z := find_from sub s 0.

(** [sub in s] *)
Definition contains (sub s : pystr) : bool := 0 <=? find s sub.

Fixpoint split_from (cur : pystr) (s : pystr) : list pystr :=
  match s with
  | [] => match cur with
          | [] => []
          | _ :: _ => [rev cur]
          end
  | c :: rest =>
      if isspace c
      then match cur with
           | [] => split_from [] rest
           | _ :: _ => rev cur :: split_from [] rest
           end
      else split_from (c :: cur) rest
  end.

(** [s.split()]: the maximal runs of non-whitespace characters. *)
Definition split (s : pystr) : list pystr := split_from [] s.

End PyStr.

Import PyStr.

(** ** The double-precision product [chunk_size * 0.7] *)

Module Float64.

(** Round a positive integer to 53 significant bits, ties to even: the
    result [(m, e)] stands for [m * 2^e]. *)
Definition round53 (p : Z) : Z * Z :=
  let b := Z.log2 p in
  if b <? 53 then (p, 0)
  else
    let s := b - 52 in
    let q := Z.shiftr p s in
    let r := Z.land p (Z.ones s) in
    let half := Z.shiftl 1 (s - 1) in
    let up := (half <? r) || ((r =? half) && Z.odd q) in
    ((if up then q + 1 else q), s).

(** The double nearest to 0.7 is [mant_0_7 * 2^-53] (0x1.6666666666666p-1). *)
Definition mant_0_7 : Z := 6305039478318694.

(** [int(n * 0.7)]: [n] is converted to a double, the product is rounded
    to a double, and [int] truncates toward zero. In [chunk_text] the
    product is evaluated only when [start + chunk_size] is below the
    length of the text, so the conversion cannot overflow. *)
Definition int_mul_0_7 (n : Z) : Z :=
  let '(m1, e1) := round53 (Z.abs n) in
  let '(m2, e2) := round53 (m1 * mant_0_7) in
  Z.sgn n * Z.shiftr (Z.shiftl m2 (e1 + e2)) 53.

End Float64.

(** ** Chunker *)

Module Chunker.

(** [c in '.!?'] *)
Definition is_terminal (c : char) : bool :=
  ((c =? 46) || (c =? 33) || (c =? 63))%N.

(** The [for pos in range(end, lo, -1)] loop with its [break]: [n] is the
    number of positions left. [Some e] is the new [end]; [None] means that
    the range was exhausted. *)
Fixpoint scan_back (T : pystr) (pos : Z) (n : nat) : outcome (option Z) :=
  match n with
  | O => Ok None
  | S n' =>
      c <- getitem T pos ;;
      if is_terminal c then Ok (Some (pos + 1))
      else scan_back T (pos - 1) n'
  end.

(** [end] after the sentence-boundary search of one iteration. *)
Definition window_end (T : pystr) (chunk_size start : Z) : outcome Z :=
  let end0 := Z.min (start + chunk_size) (len T) in
  if end0 <? len T
  then
    let lo := Z.max (start + Float64.int_mul_0_7 chunk_size) (end0 - 50) in
    r <- scan_back T end0 (Z.to_nat (end0 - lo)) ;;
    match r with
    | Some e => Ok e
    | None => Ok end0
    end
  else Ok end0.

(** One iteration of the [while] body from [start]: the next [start] and
    the list of chunks after the conditional [append]. *)
Definition chunk_iter (T : pystr) (chunk_size overlap start : Z)
    (chunks : list pystr) : outcome (Z * list pystr) :=
  e <- window_end T chunk_size start ;;
  let chunk := strip (slice T start e) in
  let chunks' := if falsy chunk then chunks else chunks ++ [chunk] in
  Ok ((if e <? len T then e - overlap else e), chunks').

Fixpoint chunk_loop (fuel : nat) (T : pystr) (chunk_size overlap start : Z)
    (chunks : list pystr) : option (outcome (list pystr)) :=
  match fuel with
  | O => None
  | S fuel' =>
      if start <? len T
      then match chunk_iter T chunk_size overlap start chunks with
           | Ok (start', chunks') =>
               chunk_loop fuel' T chunk_size overlap start' chunks'
           | Raise e => Some (Raise e)
           end
      else Some (Ok chunks)
  end.

(** The state [(start, chunks)] after [n] iterations of the [while] loop,
    or the state in which the loop stopped before that. *)
Fixpoint chunk_steps (n : nat) (T : pystr) (chunk_size overlap start : Z)
    (chunks : list pystr) : outcome (Z * list pystr) :=
  match n with
  | O => Ok (start, chunks)
  | S n' =>
      if start <? len T
      then
        st <- chunk_iter T chunk_size overlap start chunks ;;
        chunk_steps n' T chunk_size overlap (fst st) (snd st)
      else Ok (start, chunks)
  end.

(** [text_normalized] *)
Definition normalize (text : pystr) : pystr := strip (sub_ws false text).

Definition chunk_text (fuel : nat) (text : pystr) (chunk_size overlap : Z)
  : option (outcome (list pystr)) :=
  if falsy text || falsy (strip text) then Some (Ok [])
  else chunk_loop fuel (normalize text) chunk_size overlap 0 [].

End Chunker.

(** ** What the Python runtime and the libraries supply *)

(** Unicode tables of the runtime. *)
Class Unicode : Type := {
  (** [str.lower] *)
  lower : pystr -> pystr;
  (** the value of a decimal digit: the characters [\d] matches, with the
      value [int] gives them *)
  decimal : char -> option N;
  (** the closing bracket is not a digit, so the longest run of digits is
      the only one a match of [\d+\]] can take *)
  decimal_bracket : decimal 93%N = None
}.

(** The embedding model, NumPy and the BM25 scorer. *)
Class Collaborators : Type := {
  (** [model.encode] on one text *)
  encode : pystr -> list Q;
  (** [np.linalg.norm] of one vector *)
  linalg_norm : list Q -> Q;
  (** the score [BM25Okapi(corpus).get_scores(query)] gives one document *)
  bm25_score : list (list pystr) -> list pystr -> list pystr -> Q;
  (** [np.argsort] *)
  argsort : list Q -> list nat
}.

(** ** Page locator *)

Module PageLocator.
Section WithUnicode.
Context {U : Unicode}.

(** The longest prefix of decimal digits, as digit values, and the rest. *)
Fixpoint take_digits (s : pystr) : list N * pystr :=
  match s with
  | [] => ([], [])
  | c :: rest =>
      match decimal c with
      | Some d => let '(ds, tl) := take_digits rest in (d :: ds, tl)
      | None => ([], s)
      end
  end.

(** The number a run of decimal digits denotes. *)
Definition digits_value (ds : list N) : Z :=
  Z.of_N (fold_left (fun acc d => 10 * acc + d)%N ds 0%N).

(** [sys.int_info.default_max_str_digits] *)
Definition int_max_str_digits : Z := 4300.

(** [int(m.group(1))] on the digits of a match: the interpreter refuses
    to convert more than [int_max_str_digits] digits (leading zeros
    included) and raises [ValueError]. *)
Definition int_of_digits (ds : list N) : outcome Z :=
  if int_max_str_digits <? len ds
  then Raise (ValueError
         "Exceeds the limit (4300 digits) for integer string conversion")
  else Ok (digits_value ds).

(** A match of [\[PAGE (\d+)\]] at the head of [s]: the digits of its
    group and the length of the match. *)
Definition match_marker (s : pystr) : option (list N * nat) :=
  if startswith (str "[PAGE ") s
  then
    let '(ds, tl) := take_digits (skipn 6 s) in
    match ds, tl with
    | _ :: _, c :: _ =>
        if (c =? 93)%N then Some (ds, (6 + List.length ds + 1)%nat)
        else None
    | _, _ => None
    end
  else None.

(** [re.finditer]: the matches from left to right, none overlapping, each
    with its offset and the digits of its group. [skip] characters that
    belong to the previous match are passed over; [off] is the offset of
    the head of [s]. *)
Fixpoint scan_markers (skip : nat) (off : Z) (s : pystr)
  : list (Z * list N) :=
  match s with
  | [] => []
  | _ :: rest =>
      match skip with
      | S k => scan_markers k (off + 1) rest
      | O =>
          match match_marker s with
          | Some (ds, l) => (off, ds) :: scan_markers (l - 1) (off + 1) rest
          | None => scan_markers 0 (off + 1) rest
          end
      end
  end.

(** [page_matches] *)
Definition page_matches (full_text : pystr) : list (Z * list N) :=
  scan_markers 0 0 full_text.

(** The list comprehension
    [(m.start(), int(m.group(1))) for m in page_matches], which raises
    when a conversion does. *)
Fixpoint convert_matches (ms : list (Z * list N)) : outcome (list (Z * Z)) :=
  match ms with
  | [] => Ok []
  | m :: rest =>
      n <- int_of_digits (snd m) ;;
      ps <- convert_matches rest ;;
      Ok ((fst m, n) :: ps)
  end.

(** [pages] *)
Definition page_list (full_text : pystr) : outcome (list (Z * Z)) :=
  convert_matches (page_matches full_text).

(** The offset of a match and the number its digits denote. *)
Definition marker_value (m : Z * list N) : Z * Z :=
  (fst m, digits_value (snd m)).

(** Offset and number of every marker of the text: what [pages] holds
    when every conversion succeeds. *)
Definition page_markers (full_text : pystr) : list (Z * Z) :=
  map marker_value (page_matches full_text).

(** The loop [for i in range(len(pages) - 1)], with [n] indices left. *)
Fixpoint interval_loop (pages : list (Z * Z)) (pos i : Z) (n : nat)
  : outcome (option Z) :=
  match n with
  | O => Ok None
  | S n' =>
      p <- getitem pages i ;;
      q <- getitem pages (i + 1) ;;
      if (fst p <=? pos) && (pos <? fst q) then Ok (Some (snd p))
      else interval_loop pages pos (i + 1) n'
  end.

(** The body of the [try]. *)
Definition estimate_page_try (chunk_text full_text : pystr) : outcome Z :=
  pages <- page_list full_text ;;
  if falsy pages then Ok 1
  else
    let pos := find full_text chunk_text in
    if pos <? 0 then Ok 1
    else
      r <- interval_loop pages pos 0 (Z.to_nat (len pages - 1)) ;;
      match r with
      | Some n => Ok n
      | None =>
          if falsy pages then Ok 1
          else (p <- getitem pages (-1) ;; Ok (snd p))
      end.

(** [except: return 1] *)
Definition estimate_page (chunk_text full_text : pystr) : Z :=
  match estimate_page_try chunk_text full_text with
  | Ok n => n
  | Raise _ => 1
  end.

End WithUnicode.
End PageLocator.

(** ** Hybrid ranker *)

Module Ranker.

(** The BM25 object keeps the tokenised corpus. *)
Record BM25 : Type := BM25Okapi { corpus : list (list pystr) }.

(** The index dictionary (its ["time"] entry, a wall-clock reading, is
    left out). *)
Record Index : Type := mkIndex {
  embeddings : list (list Q);
  bm25 : BM25;
  chunks : list pystr
}.

Definition SEMANTIC_WEIGHT : Q := 7 # 10.
Definition BM25_WEIGHT : Q := 3 # 10.
Definition eps : Q := 1 # 10000000000.

Definition Qltb (a b : Q) : bool := negb (Qle_bool b a).

(** [bm25_scores.max()], which raises on an empty array. *)
Definition array_max (xs : list Q) : outcome Q :=
  match xs with
  | [] => Raise (ValueError
            "zero-size array to reduction operation maximum which has no identity")
  | x :: rest => Ok (fold_left Qmax rest x)
  end.

Definition dot (u v : list Q) : Q :=
  fold_left Qplus (map (fun p => fst p * snd p)%Q (combine u v)) 0%Q.

(** [(E @ v.T).ravel()]: every row of [E] must have the length of [v]. *)
Fixpoint matvec (E : list (list Q)) (v : list Q) : outcome (list Q) :=
  match E with
  | [] => Ok []
  | row :: E' =>
      if Nat.eqb (List.length row) (List.length v)
      then (rest <- matvec E' v ;; Ok (dot row v :: rest))
      else Raise (ValueError "matmul: mismatch in core dimension")
  end.

(** [xs + ys] on one-dimensional arrays, with broadcasting of a
    one-element array. *)
Definition array_add (xs ys : list Q) : outcome (list Q) :=
  if Nat.eqb (List.length xs) (List.length ys)
  then Ok (map (fun p => fst p + snd p)%Q (combine xs ys))
  else match xs, ys with
       | [x], _ => Ok (map (fun y => x + y)%Q ys)
       | _, [y] => Ok (map (fun x => x + y)%Q xs)
       | _, _ => Raise (ValueError "operands could not be broadcast together")
       end.

(** [sorted(results, key=lambda x: x[1], reverse=True)]: descending by
    score, equal scores in their original order. *)
Fixpoint insert_desc (x : pystr * Q) (l : list (pystr * Q)) : list (pystr * Q) :=
  match l with
  | [] => [x]
  | y :: l' => if Qltb (snd x) (snd y) then y :: insert_desc x l' else x :: l
  end.

Definition sorted_desc (l : list (pystr * Q)) : list (pystr * Q) :=
  fold_right insert_desc [] l.

(** [BM25Okapi(tokenized_chunks)]: the constructor of [rank_bm25] divides
    by the number of documents and by the number of distinct words, and
    so raises [ZeroDivisionError] when no document has a token. *)
Definition new_BM25Okapi (tokenized_chunks : list (list pystr)) : outcome BM25 :=
  if forallb falsy tokenized_chunks
  then Raise (ZeroDivisionError "division by zero")
  else Ok (BM25Okapi tokenized_chunks).

Section WithCollaborators.
Context {U : Unicode} {C : Collaborators}.

Definition is_definition_chunk (text query : pystr) : bool :=
  let text_lower := lower text in
  let query_lower := lower query in
  let patterns :=
    [ query_lower ++ str " is";
      str "definition of " ++ query_lower;
      str "what is " ++ query_lower;
      query_lower ++ str " refers to";
      query_lower ++ str " means";
      query_lower ++ str ":" ] in
  existsb (fun pattern => contains pattern text_lower) patterns.

(** [v / (np.linalg.norm(v) + 1e-10)] *)
Definition normalized (v : list Q) : list Q :=
  map (fun x => x / (linalg_norm v + eps))%Q v.

Definition get_scores (b : BM25) (query_tokens : list pystr) : list Q :=
  map (bm25_score (corpus b) query_tokens) (corpus b).

Definition build_index (chunks : list pystr) : outcome Index :=
  if falsy chunks then Raise (ValueError "No chunks to index")
  else
    let embeddings_normalized := map (fun c => normalized (encode c)) chunks in
    let tokenized_chunks := map split chunks in
    bm25 <- new_BM25Okapi tokenized_chunks ;;
    Ok {| embeddings := embeddings_normalized;
          bm25 := bm25;
          chunks := chunks |}.

Definition semantic_scores (query : pystr) (index : Index) : outcome (list Q) :=
  matvec (embeddings index) (normalized (encode query)).

(** [bm25_scores] after the division by its maximum. *)
Definition lexical_scores (query : pystr) (index : Index) : outcome (list Q) :=
  let bm25_scores := get_scores (bm25 index) (split (lower query)) in
  m <- array_max bm25_scores ;;
  Ok (if Qltb 0 m then map (fun x => x / m)%Q bm25_scores else bm25_scores).

Definition combined_scores (query : pystr) (index : Index) : outcome (list Q) :=
  sem <- semantic_scores query index ;;
  lex <- lexical_scores query index ;;
  array_add (map (Qmult SEMANTIC_WEIGHT) sem) (map (Qmult BM25_WEIGHT) lex).

(** [np.argsort(combined_scores)[::-1][:k*3]] *)
Definition top_k_idx (combined : list Q) (k : Z) : list nat :=
  slice (rev (argsort combined)) 0 (k * 3).

(** The loop over [top_k_idx]. *)
Fixpoint rank_loop (query : pystr) (index : Index) (combined : list Q)
    (idxs : list nat) (results : list (pystr * Q)) : outcome (list (pystr * Q)) :=
  match idxs with
  | [] => Ok results
  | idx :: idxs' =>
      match nth_error (chunks index) idx, nth_error combined idx with
      | Some chunk, Some score =>
          let score :=
            if is_definition_chunk chunk query
            then Qmin (score * (13 # 10)) 1
            else score in
          let results :=
            if Qltb (1 # 10) score then results ++ [(chunk, score)]
            else results in
          rank_loop query index combined idxs' results
      | _, _ => Raise (IndexError "index out of range")
      end
  end.

Definition search (query : pystr) (index : Index) (k : Z)
  : outcome (list (pystr * Q)) :=
  if falsy query || falsy (strip query) then Raise (ValueError "Query empty")
  else
    combined <- combined_scores query index ;;
    results <- rank_loop query index combined (top_k_idx combined k) [] ;;
    Ok (slice (sorted_desc results) 0 k).

End WithCollaborators.
End Ranker.

(** ** Text extraction: the PDF branch of [extract_text] *)

Module Extractor.

Fixpoint uint_chars (d : Decimal.uint) : pystr :=
  match d with
  | Decimal.Nil => []
  | Decimal.D0 d => 48%N :: uint_chars d
  | Decimal.D1 d => 49%N :: uint_chars d
  | Decimal.D2 d => 50%N :: uint_chars d
  | Decimal.D3 d => 51%N :: uint_chars d
  | Decimal.D4 d => 52%N :: uint_chars d
  | Decimal.D5 d => 53%N :: uint_chars d
  | Decimal.D6 d => 54%N :: uint_chars d
  | Decimal.D7 d => 55%N :: uint_chars d
  | Decimal.D8 d => 56%N :: uint_chars d
  | Decimal.D9 d => 57%N :: uint_chars d
  end.

(** [f"{n}"] for a page number: its decimal digits. *)
Definition format_nat (n : nat) : pystr := uint_chars (Nat.to_uint n).

(** [f"[PAGE {page_num}]\n{extracted}\n"] *)
Definition page_block (page_num : nat) (extracted : pystr) : pystr :=
  str "[PAGE " ++ format_nat page_num ++ str "]" ++ [10%N] ++ extracted ++ [10%N].

(** The loop over [enumerate(pdf.pages, 1)] inside the [try]: [pages]
    holds what [page.extract_text()] does for each page (it raises, or
    gives [None] or a string), [page_num] is the number of the first of
    them and [text] the accumulator. A page whose text is [None] or empty
    adds nothing; a page that raises ends the loop with its exception. *)
Fixpoint pdf_loop (page_num : nat) (pages : list (outcome (option pystr)))
    (text : pystr) : outcome pystr :=
  match pages with
  | [] => Ok text
  | page :: rest =>
      extracted <- page ;;
      pdf_loop (S page_num) rest
        (match extracted with
         | Some t => if falsy t then text else text ++ page_block page_num t
         | None => text
         end)
  end.

(** The PDF branch of [extract_text] with its [except]: [file] is what
    [pdfplumber.open(file)] does, an exception or the pages; any
    exception makes the function return the empty string. *)
Definition extract_text_pdf (file : outcome (list (outcome (option pystr))))
  : pystr :=
  match (pages <- file ;; pdf_loop 1 pages []) with
  | Ok text => text
  | Raise _ => []
  end.

(** What [extract_text] returns for a PDF that opens and whose pages
    yield the texts [pages], nothing raising. *)
Definition extract_pdf_text (pages : list (option pystr)) : pystr :=
  extract_text_pdf (Ok (map Ok pages)).

End Extractor.

(** ** Instances for running the program on ASCII text *)

Module Stub.

(** [str.lower] restricted to ASCII letters. *)
Definition ascii_lower (s : pystr) : pystr :=
  map (fun c => if (65 <=? c) && (c <=? 90) then c + 32 else c)%N s.

(** The digits [0-9]. *)
Definition ascii_decimal (c : char) : option N :=
  if ((48 <=? c) && (c <=? 57))%N then Some (c - 48)%N else None.

#[export] Instance ascii_unicode : Unicode :=
  {| lower := ascii_lower;
     decimal := ascii_decimal;
     decimal_bracket := eq_refl |}.

(** A deterministic fake embedding: one of the two unit vectors of the
    plane, chosen by the parity of the length of the text. *)
Definition fake_encode (s : pystr) : list Q :=
  if Z.even (len s) then [1%Q; 0%Q] else [0%Q; 1%Q].

(** The sum of absolute values, which is the Euclidean norm of the vectors
    [fake_encode] gives. *)
Definition fake_norm (v : list Q) : Q :=
  fold_left Qplus (map Qabs v) 0%Q.

Fixpoint eq_pystr (a b : pystr) : bool :=
  match a, b with
  | [], [] => true
  | x :: a', y :: b' => (x =? y)%N && eq_pystr a' b'
  | _, _ => false
  end.

(** Term overlap: how many query tokens occur in the document. *)
Definition overlap_score (_ : list (list pystr)) (query doc : list pystr) : Q :=
  inject_Z (len (filter (fun t => existsb (eq_pystr t) doc) query)).

Fixpoint insert_idx (xs : list Q) (i : nat) (l : list nat) : list nat :=
  match l with
  | [] => [i]
  | j :: l' =>
      if Ranker.Qltb (nth i xs 0%Q) (nth j xs 0%Q) then i :: l
      else j :: insert_idx xs i l'
  end.

(** An ascending argsort by insertion. *)
Definition insertion_argsort (xs : list Q) : list nat :=
  fold_left (fun l i => insert_idx xs i l) (seq 0 (List.length xs)) [].

#[export] Instance fake_collaborators : Collaborators :=
  {| encode := fake_encode;
     linalg_norm := fake_norm;
     bm25_score := overlap_score;
     argsort := insertion_argsort |}.

End Stub.

(* ===================================================================== *)
(** * Part II: vocabulary of the properties and sample inputs             *)
(* ===================================================================== *)

(** ** Chunker *)

(** The least distance between [start] and the [end] of its window, when
    the window does not reach the end of the text. *)
Definition window_step (chunk_size : Z) : Z :=
  Z.min chunk_size
        (Z.max (Float64.int_mul_0_7 chunk_size) (chunk_size - 50) + 2).

(** A text with a full stop at offset 8 and none at offsets 9 and 10. *)
Definition stalling_text : pystr := str "aaaaaaaa.aaaaaaaaaaa".

(** Eight sentences of six characters. *)
Definition short_sentences : pystr :=
  str "aaaaa.aaaaa.aaaaa.aaaaa.aaaaa.aaaaa.aaaaa.aaaaa.".

(** A text with a full stop exactly at offset [chunk_size = 10]. *)
Definition stop_at_window_end : pystr := str "aaaaaaaaaa.bbb".

(** ** Substring search *)

(** [p] occurs in [s]. *)
Definition occurs_in (p s : pystr) : Prop :=
  exists pre post, s = pre ++ p ++ post.

(** ** Hybrid ranker *)

Section RankerVocabulary.
Import Ranker.
Context {U : Unicode} {C : Collaborators}.

(** The six definition patterns for a lower-cased query. *)
Definition definition_patterns (q : pystr) : list pystr :=
  [ q ++ str " is";
    str "definition of " ++ q;
    str "what is " ++ q;
    q ++ str " refers to";
    q ++ str " means";
    q ++ str ":" ].

(** The lower-cased text contains at least one of the six patterns built
    from the lower-cased query. *)
Definition has_definition_pattern (text query : pystr) : Prop :=
  exists p, In p (definition_patterns (lower query)) /\ occurs_in p (lower text).

(** The chunk and fused score that index [idx] of the pool stands for. *)
Definition candidate (index : Index) (combined : list Q) (idx : nat)
    (c : pystr * Q) : Prop :=
  nth_error (chunks index) idx = Some (fst c)
  /\ nth_error combined idx = Some (snd c).

(** The specified effect of the boost: [r] is candidate [c] after it. *)
Definition rescored (query : pystr) (c r : pystr * Q) : Prop :=
  fst r = fst c
  /\ (has_definition_pattern (fst c) query ->
      snd r = Qmin (snd c * (13 # 10)) 1
      /\ (snd r <= 1)%Q
      /\ ((1 <= snd c * (13 # 10))%Q -> (snd r == 1)%Q))
  /\ (~ has_definition_pattern (fst c) query -> snd r = snd c).

Definition above_threshold (r : pystr * Q) : bool := Qltb (1 # 10) (snd r).

(** The alignment of the three parts of an index. *)
Definition aligned (index : Index) : Prop :=
  List.length (embeddings index) = List.length (chunks index)
  /\ List.length (corpus (bm25 index)) = List.length (chunks index).

(** The error of the guard on the query. *)
Definition query_empty : exn := ValueError "Query empty".

End RankerVocabulary.

(** ** The ranker on a fake model *)

Section Samples.
Import Ranker Stub.

Definition sample_chunks : list pystr :=
  [ str "Photosynthesis is the process plants use to convert light into energy.";
    str "Cats are mammals." ].

Definition sample_query : pystr := str "photosynthesis".

Definition sample_index : Index :=
  Eval vm_compute in
    match build_index sample_chunks with
    | Ok index => index
    | Raise _ => mkIndex [] (BM25Okapi []) []
    end.

Definition sample_semantic : list Q :=
  Eval vm_compute in
    match semantic_scores sample_query sample_index with
    | Ok sem => sem
    | Raise _ => []
    end.

Definition sample_results : list (pystr * Q) :=
  Eval vm_compute in
    match search sample_query sample_index 5 with
    | Ok results => results
    | Raise _ => []
    end.


End Samples.

(** ** Page markers of an extracted PDF *)

(** The digits [0] to [9] have their values (as they do in Unicode). *)
Definition ascii_digits (U : Unicode) : Prop :=
  forall d : N, (d < 10)%N -> decimal (48 + d)%N = Some d.

(** The text the loop of [extract_text] has written after the pages
    [pages], none of which raised, starting from [text]. *)
Fixpoint pdf_written (page_num : nat) (pages : list (option pystr))
    (text : pystr) : pystr :=
  match pages with
  | [] => text
  | extracted :: rest =>
      pdf_written (S page_num) rest
        (match extracted with
         | Some t =>
             if falsy t then text else text ++ Extractor.page_block page_num t
         | None => text
         end)
  end.

(** Every marker of the text has few enough digits for [int] to convert
    it. *)
Definition markers_convert {U : Unicode} (full_text : pystr) : Prop :=
  Forall (fun m => len (snd m) <= PageLocator.int_max_str_digits)
         (PageLocator.page_matches full_text).

(** Where the loop of [extract_text] writes its markers: the offset and
    number of the block of every page that has text, when the first page
    has number [page_num] and its block would start at offset [off]. *)
Fixpoint marker_table (page_num : nat) (off : Z) (pages : list (option pystr))
  : list (Z * Z) :=
  match pages with
  | [] => []
  | extracted :: rest =>
      match extracted with
      | Some ((_ :: _) as t) =>
          (off, Z.of_nat page_num)
          :: marker_table (S page_num)
               (off + len (Extractor.page_block page_num t)) rest
      | _ => marker_table (S page_num) off rest
      end
  end.

(** ** Shapes of strings *)

(** A non-empty string whose first and last characters are not
    whitespace. *)
Definition no_edge_space (s : pystr) : bool :=
  match s with
  | [] => false
  | c :: _ => negb (isspace c) && negb (isspace (last s c))
  end.

(** No two whitespace characters are adjacent. *)
Fixpoint no_space_runs (s : pystr) : bool :=
  match s with
  | c :: (d :: _) as rest => negb (isspace c && isspace d) && no_space_runs rest
  | _ => true
  end.

(** The only whitespace character is the space. *)
Definition only_plain_spaces (s : pystr) : bool :=
  forallb (fun c => negb (isspace c) || (c =? 32)%N) s.

(** The characters that are not whitespace, in order. *)
Definition ink (s : pystr) : pystr := filter (fun c => negb (isspace c)) s.

(** ** Sample documents *)

(** A text with runs of spaces, a tab and a newline. *)
Definition spaced_text : pystr :=
  str "  The cat sat.   It " ++ [9%N; 10%N] ++ str "purred and ran off.  ".

(** The texts of a four-page PDF whose second and third pages are empty. *)
Definition sample_pdf_pages : list (option pystr) :=
  [Some (str "Alpha text."); None; Some []; Some (str "Beta text.")].

(** Two pages written with their markers. *)
Definition marked_text : pystr :=
  str "[PAGE 1]" ++ [10%N] ++ str "Alpha text. [PAGE 2]" ++ [10%N]
  ++ str "Beta text.".

(** The chunks of [spaced_text], their index and a search in it, on the
    fake model. *)
Section SpacedSamples.
Import Ranker Stub.

Definition spaced_chunks : list pystr :=
  [str "The cat sat. It"; str "It purred and ra"; str "ran off."].

Definition spaced_index : Index :=
  Eval vm_compute in
    match build_index spaced_chunks with
    | Ok index => index
    | Raise _ => mkIndex [] (BM25Okapi []) []
    end.

Definition spaced_results : list (pystr * Q) :=
  Eval vm_compute in
    match search (str "cat") spaced_index 5 with
    | Ok results => results
    | Raise _ => []
    end.

End SpacedSamples.

(* ===================================================================== *)
(** * Part III: properties                                                *)
(* ===================================================================== *)

(** Evaluation of a closed run of the program. *)
Ltac run := vm_compute; reflexivity.

(** ** The string and sequence primitives on examples *)

Example normalize_collapses_whitespace :
  Chunker.normalize (map N.of_nat [32; 97; 9; 10; 32; 98; 160; 32]%nat) = str "a b".
Proof. run. Qed.

Example slice_negative_start : slice (str "abcdef") (-2) 5 = str "e".
Proof. run. Qed.

Example slice_crossed_bounds : slice (str "abc") 2 (-1) = [].
Proof. run. Qed.

Example getitem_negative : getitem (str "abc") (-1) = Ok 99%N.
Proof. run. Qed.

Example getitem_out_of_range :
  getitem (str "abc") 3 = Raise (IndexError "index out of range").
Proof. run. Qed.

Example find_first_occurrence :
  find (str "abcabc") (str "bc") = 1 /\ find (str "abc") (str "x") = -1
  /\ find (str "abc") [] = 0.
Proof. repeat split; run. Qed.

Example split_on_whitespace :
  split (str "  what is   it ") = [str "what"; str "is"; str "it"].
Proof. run. Qed.

Example sorted_desc_is_stable :
  Ranker.sorted_desc
    [(str "a", 1%Q); (str "b", 2%Q); (str "c", 1%Q); (str "d", 2%Q)]
  = [(str "b", 2%Q); (str "d", 2%Q); (str "a", 1%Q); (str "c", 1%Q)].
Proof. run. Qed.

(** ** Sequences *)

Lemma len_nonneg {A : Type} (s : list A) : 0 <= len s.
Proof. unfold len. lia. Qed.

Lemma len_app {A : Type} (s t : list A) : len (s ++ t) = len s + len t.
Proof. unfold len. rewrite length_app. lia. Qed.

Lemma clamp_index_range (n i : Z) : 0 <= n -> 0 <= clamp_index n i <= n.
Proof.
  intros Hn. unfold clamp_index.
  destruct (Z.ltb_spec i 0); lia.
Qed.

(** A slice between ordered bounds is no longer than their distance. *)
Lemma slice_len_le {A : Type} (s : list A) (a b : Z) :
  a <= b -> len (slice s a b) <= b - a.
Proof.
  intros Hab. unfold slice.
  set (n := len s).
  assert (Hn : 0 <= n) by apply len_nonneg.
  assert (Hd : clamp_index n b - clamp_index n a <= b - a).
  { unfold clamp_index.
    destruct (Z.ltb_spec b 0), (Z.ltb_spec a 0); lia. }
  unfold len at 1. rewrite length_firstn.
  lia.
Qed.

Lemma lstrip_length (s : pystr) : (List.length (lstrip s) <= List.length s)%nat.
Proof.
  induction s as [|c s IH]; simpl; [lia|].
  destruct (isspace c); simpl; lia.
Qed.

Lemma strip_len_le (s : pystr) : len (strip s) <= len s.
Proof.
  unfold strip, rstrip, len.
  rewrite length_rev.
  pose proof (lstrip_length (rev (lstrip s))) as H1.
  rewrite length_rev in H1.
  pose proof (lstrip_length s). lia.
Qed.

Lemma getitem_in_range {A : Type} (s : list A) (i : Z) :
  0 <= i < len s -> exists a, getitem s i = Ok a.
Proof.
  intros Hi. unfold getitem.
  destruct (Z.ltb_spec i 0); [lia|].
  destruct (Z.leb_spec 0 i); [|lia].
  destruct (Z.ltb_spec i (len s)); [|lia].
  simpl.
  destruct (nth_error s (Z.to_nat i)) eqn:E; [eauto|].
  apply nth_error_None in E. unfold len in Hi. lia.
Qed.

(** ** The product [chunk_size * 0.7] *)

Lemma round53_nonneg (p : Z) : 0 <= p -> 0 <= fst (Float64.round53 p).
Proof.
  intros Hp. unfold Float64.round53.
  destruct (Z.log2 p <? 53); simpl; [lia|].
  assert (0 <= Z.shiftr p (Z.log2 p - 52)) by (apply Z.shiftr_nonneg; lia).
  destruct (_ || _); lia.
Qed.

Lemma int_mul_0_7_nonneg (n : Z) : 0 < n -> 0 <= Float64.int_mul_0_7 n.
Proof.
  intros Hn. unfold Float64.int_mul_0_7.
  pose proof (round53_nonneg (Z.abs n) ltac:(lia)) as H1.
  destruct (Float64.round53 (Z.abs n)) as [m1 e1]. simpl in H1.
  pose proof (round53_nonneg (m1 * Float64.mant_0_7)
                ltac:(unfold Float64.mant_0_7; lia)) as H2.
  destruct (Float64.round53 (m1 * Float64.mant_0_7)) as [m2 e2]. simpl in H2.
  assert (0 <= Z.shiftr (Z.shiftl m2 (e1 + e2)) 53).
  { apply Z.shiftr_nonneg. apply Z.shiftl_nonneg. exact H2. }
  rewrite (Z.sgn_pos n) by lia. lia.
Qed.

Example int_mul_0_7_samples :
  map Float64.int_mul_0_7 [1; 3; 7; 10; 90; 500; 1000; 1290]
  = [0; 2; 4; 7; 62; 350; 700; 902].
Proof. reflexivity. Qed.

(** ** Chunker *)

Section ChunkerFacts.
Import Chunker.

Variable T : pystr.
Variables chunk_size overlap : Z.
Hypothesis size_pos : 0 < chunk_size.


Lemma scan_back_found (pos : Z) (n : nat) (e : Z) :
  scan_back T pos n = Ok (Some e) -> pos - Z.of_nat n + 2 <= e <= pos + 1.
Proof.
  revert pos. induction n as [|n IH]; intros pos H; simpl in H.
  - discriminate.
  - destruct (getitem T pos) as [c|]; simpl in H; [|discriminate].
    destruct (is_terminal c).
    + inversion H. lia.
    + apply IH in H. lia.
Qed.

Lemma scan_back_total (pos : Z) (n : nat) :
  0 <= pos - Z.of_nat n + 1 -> pos < len T ->
  exists r, scan_back T pos n = Ok r.
Proof.
  revert pos. induction n as [|n IH]; intros pos Hlo Hhi; simpl.
  - eauto.
  - destruct (getitem_in_range T pos ltac:(lia)) as [c ->]. simpl.
    destruct (is_terminal c); [eauto|].
    apply IH; lia.
Qed.

Lemma window_end_bounds (start e : Z) :
  start < len T ->
  window_end T chunk_size start = Ok e ->
  start < e <= start + chunk_size + 1 /\ e <= len T
  /\ Z.min (len T) (start + window_step chunk_size) <= e.
Proof.
  intros Hs H. unfold window_end in H. unfold window_step.
  pose proof (int_mul_0_7_nonneg chunk_size size_pos) as Hf.
  destruct (Z.ltb_spec (Z.min (start + chunk_size) (len T)) (len T)) as [Hlt|Hge].
  - destruct (scan_back T _ _) as [[e'|]|] eqn:Hscan; simpl in H;
      [| |discriminate]; inversion H; subst.
    + apply scan_back_found in Hscan. lia.
    + lia.
  - inversion H; subst. lia.
Qed.

Lemma window_end_total (start : Z) :
  0 <= start < len T -> exists e, window_end T chunk_size start = Ok e.
Proof.
  intros Hs. unfold window_end.
  pose proof (int_mul_0_7_nonneg chunk_size size_pos) as Hf.
  destruct (Z.ltb_spec (Z.min (start + chunk_size) (len T)) (len T)) as [Hlt|Hge];
    [|eauto].
  destruct (scan_back_total (Z.min (start + chunk_size) (len T))
              (Z.to_nat (Z.min (start + chunk_size) (len T)
                         - Z.max (start + Float64.int_mul_0_7 chunk_size)
                             (Z.min (start + chunk_size) (len T) - 50))))
    as [r Hr]; [lia|lia|].
  rewrite Hr. simpl. destruct r; eauto.
Qed.

(** Every chunk an iteration appends is at most [chunk_size + 1] long. *)
Lemma chunk_iter_lengths (start start' : Z) (acc acc' : list pystr) :
  start < len T ->
  Forall (fun c => len c <= chunk_size + 1) acc ->
  chunk_iter T chunk_size overlap start acc = Ok (start', acc') ->
  Forall (fun c => len c <= chunk_size + 1) acc'.
Proof.
  intros Hs Hacc H. unfold chunk_iter in H.
  destruct (window_end T chunk_size start) as [e|] eqn:He; simpl in H;
    [|discriminate].
  apply window_end_bounds in He; [|exact Hs].
  inversion H; subst.
  destruct (falsy _); [exact Hacc|].
  apply Forall_app. split; [exact Hacc|].
  constructor; [|constructor].
  pose proof (strip_len_le (slice T start e)).
  pose proof (slice_len_le T start e ltac:(lia)). lia.
Qed.

Lemma chunk_loop_lengths (fuel : nat) :
  forall (start : Z) (acc cs : list pystr),
  Forall (fun c => len c <= chunk_size + 1) acc ->
  chunk_loop fuel T chunk_size overlap start acc = Some (Ok cs) ->
  Forall (fun c => len c <= chunk_size + 1) cs.
Proof.
  induction fuel as [|fuel IH]; intros start acc cs Hacc H; simpl in H.
  - discriminate.
  - destruct (Z.ltb_spec start (len T)) as [Hs|Hs].
    + destruct (chunk_iter T chunk_size overlap start acc) as [[start' acc']|]
        eqn:Hit; [|discriminate].
      eapply IH; [|exact H].
      eapply chunk_iter_lengths; eauto.
    + inversion H; subst. exact Hacc.
Qed.

Lemma chunk_steps_lengths (n : nat) :
  forall (start : Z) (acc : list pystr) (st : Z * list pystr),
  Forall (fun c => len c <= chunk_size + 1) acc ->
  chunk_steps n T chunk_size overlap start acc = Ok st ->
  Forall (fun c => len c <= chunk_size + 1) (snd st).
Proof.
  induction n as [|n IH]; intros start acc st Hacc H; simpl in H.
  - inversion H; subst. exact Hacc.
  - destruct (Z.ltb_spec start (len T)) as [Hs|Hs].
    + destruct (chunk_iter T chunk_size overlap start acc) as [[start' acc']|]
        eqn:Hit; simpl in H; [|discriminate].
      eapply IH; [|exact H].
      eapply chunk_iter_lengths; eauto.
    + inversion H; subst. exact Hacc.
Qed.

(** A run of the loop that returns is a run of its iterations that ends
    with [start] at or past the end of the text. *)
Lemma chunk_loop_steps (fuel : nat) :
  forall (start : Z) (acc cs : list pystr),
  chunk_loop fuel T chunk_size overlap start acc = Some (Ok cs) ->
  exists start',
    chunk_steps fuel T chunk_size overlap start acc = Ok (start', cs)
    /\ len T <= start'.
Proof.
  induction fuel as [|fuel IH]; intros start acc cs H; simpl in H.
  - discriminate.
  - simpl. destruct (Z.ltb_spec start (len T)) as [Hs|Hs].
    + destruct (chunk_iter T chunk_size overlap start acc) as [[start1 acc1]|];
        [|discriminate].
      simpl. apply IH. exact H.
    + inversion H; subst. exists start. split; [reflexivity|exact Hs].
Qed.

(** The next [start] when [window_step] exceeds the overlap: either the
    loop is about to stop, or [start] has grown by the difference. *)
Lemma chunk_iter_progress (start : Z) (acc : list pystr) :
  0 <= start < len T ->
  0 < window_step chunk_size - overlap ->
  exists start' acc',
    chunk_iter T chunk_size overlap start acc = Ok (start', acc')
    /\ (exists cs, acc' = acc ++ cs /\ len cs <= 1)
    /\ (len T <= start' \/ start + (window_step chunk_size - overlap) <= start').
Proof.
  intros Hs Hm.
  destruct (window_end_total start Hs) as [e He].
  pose proof (window_end_bounds start e ltac:(lia) He) as Hb.
  unfold chunk_iter. rewrite He. simpl.
  eexists _, _. split; [reflexivity|]. split.
  - destruct (falsy _).
    + exists []. rewrite app_nil_r. split; [reflexivity|]. unfold len; simpl; lia.
    + eexists [_]. split; [reflexivity|]. unfold len; simpl; lia.
  - destruct (Z.ltb_spec e (len T)); lia.
Qed.

(** With [window_step] above the overlap the loop stops, and it appends at
    most one chunk per [window_step - overlap] characters left, plus one. *)
Lemma chunk_loop_terminates (n : nat) :
  0 < window_step chunk_size - overlap ->
  forall (start : Z) (acc : list pystr),
  0 <= start -> len T - start <= Z.of_nat n ->
  exists fuel cs,
    chunk_loop fuel T chunk_size overlap start acc = Some (Ok (acc ++ cs))
    /\ (len T <= start -> cs = [])
    /\ (start < len T ->
        len cs <= (len T - 1 - start) / (window_step chunk_size - overlap) + 1).
Proof.
  intros Hm. set (m := window_step chunk_size - overlap) in *.
  induction n as [|n IH]; intros start acc Hs Hn.
  - exists 1%nat, []. simpl.
    destruct (Z.ltb_spec start (len T)); [lia|].
    rewrite app_nil_r. split; [reflexivity|]. split; intros; [reflexivity|lia].
  - destruct (Z.ltb_spec start (len T)) as [Hlt|Hge].
    + destruct (chunk_iter_progress start acc ltac:(lia) Hm)
        as (start' & acc' & Hit & (c1 & -> & Hc1) & Hprog).
      destruct (IH start' (acc ++ c1) ltac:(fold m in Hprog; lia)
                  ltac:(fold m in Hprog; lia))
        as (fuel & cs & Hloop & Hstop & Hcount).
      exists (S fuel), (c1 ++ cs). simpl.
      destruct (Z.ltb_spec start (len T)); [|lia].
      rewrite Hit, Hloop, app_assoc.
      split; [reflexivity|]. split; [lia|]. intros _.
      rewrite len_app.
      assert (Hq : 0 <= (len T - 1 - start) / m)
        by (apply Z.div_pos; lia).
      destruct (Z.le_gt_cases (len T) start') as [Hend|Hmore].
      * rewrite (Hstop Hend). unfold len at 2. simpl. lia.
      * specialize (Hcount Hmore).
        assert (Hmono : (len T - 1 - start') / m
                        <= (len T - 1 - start - m) / m)
          by (apply Z.div_le_mono; fold m in Hprog; lia).
        replace (len T - 1 - start - m) with (len T - 1 - start + (-1) * m)
          in Hmono by lia.
        rewrite Z.div_add in Hmono by lia.
        lia.
    + exists 1%nat, []. simpl.
      destruct (Z.ltb_spec start (len T)); [lia|].
      rewrite app_nil_r. split; [reflexivity|]. split; intros; [reflexivity|lia].
Qed.

End ChunkerFacts.

Section ChunkerClaims.
Import Chunker.

Lemma stalling_window : window_end stalling_text 10 0 = Ok 9.
Proof. run. Qed.

Lemma stalling_iter (acc : list pystr) :
  chunk_iter stalling_text 10 9 0 acc = Ok (0, acc ++ [str "aaaaaaaa."]).
Proof.
  unfold chunk_iter. rewrite stalling_window. run.
Qed.

Lemma stalling_loop (fuel : nat) :
  forall acc, chunk_loop fuel stalling_text 10 9 0 acc = None.
Proof.
  induction fuel as [|fuel IH]; intros acc; [reflexivity|].
  cbn [chunk_loop].
  replace (0 <? len stalling_text) with true by run.
  rewrite stalling_iter. apply IH.
Qed.

Lemma stalling_steps (n : nat) :
  forall acc,
  chunk_steps n stalling_text 10 9 0 acc
  = Ok (0, acc ++ repeat (str "aaaaaaaa.") n).
Proof.
  induction n as [|n IH]; intros acc.
  - simpl. rewrite app_nil_r. reflexivity.
  - cbn [chunk_steps].
    replace (0 <? len stalling_text) with true by run.
    rewrite stalling_iter. cbn [bind fst snd]. rewrite IH.
    rewrite <- app_assoc. reflexivity.
Qed.

(** C2 (the code departs from the claim). With [chunk_size = 10] and
    [overlap = 9], which satisfy [size > 0] and [0 <= overlap < size], the
    loop of [chunk_text] on ["aaaaaaaa.aaaaaaaaaaa"] never stops: the
    sentence-boundary search moves [end] back to 9, the next [start] is
    [9 - 9 = 0] again, so after [n] iterations [start] is still 0 and the
    chunk list is [n] copies of ["aaaaaaaa."], and no amount of fuel lets
    the function return. *)
Theorem chunk_text_stalls_when_boundary_precedes_overlap :
  (0 < 10 /\ 0 <= 9 < 10)
  /\ normalize stalling_text = stalling_text
  /\ window_end stalling_text 10 0 = Ok 9
  /\ (forall n,
        chunk_steps n stalling_text 10 9 0 []
        = Ok (0, repeat (str "aaaaaaaa.") n))
  /\ (forall fuel, chunk_text fuel stalling_text 10 9 = None).
Proof.
  split; [lia|]. split; [run|]. split; [exact stalling_window|].
  split; [intros n; apply (stalling_steps n [])|].
  intros fuel. unfold chunk_text.
  replace (falsy stalling_text || falsy (strip stalling_text)) with false by run.
  replace (normalize stalling_text) with stalling_text by run.
  apply stalling_loop.
Qed.

(** The loop does stop whenever [window_step] exceeds the overlap, with
    the count bound used below. *)
Lemma chunk_text_terminates (text : pystr) (chunk_size overlap : Z) :
  0 < chunk_size ->
  0 < window_step chunk_size - overlap ->
  exists fuel cs,
    chunk_text fuel text chunk_size overlap = Some (Ok cs)
    /\ len cs <= len (normalize text) / (window_step chunk_size - overlap) + 1.
Proof.
  intros Hsize Hm. unfold chunk_text.
  assert (Hq : 0 <= len (normalize text) / (window_step chunk_size - overlap))
    by (apply Z.div_pos; [apply len_nonneg|lia]).
  destruct (falsy text || falsy (strip text)).
  - exists 0%nat, []. split; [reflexivity|]. unfold len at 1. simpl. lia.
  - destruct (chunk_loop_terminates (normalize text) chunk_size overlap Hsize
                (Z.to_nat (len (normalize text))) Hm 0 [] ltac:(lia)
                ltac:(pose proof (len_nonneg (normalize text)); lia))
      as (fuel & cs & Hloop & Hstop & Hcount).
    exists fuel, cs. split; [exact Hloop|].
    destruct (Z.le_gt_cases (len (normalize text)) 0) as [Hz|Hnz].
    + rewrite (Hstop Hz). unfold len at 1. simpl. lia.
    + specialize (Hcount Hnz).
      assert ((len (normalize text) - 1 - 0)
                / (window_step chunk_size - overlap)
              <= len (normalize text) / (window_step chunk_size - overlap))
        by (apply Z.div_le_mono; lia).
      lia.
Qed.


(** The ranges of the sliders of [app.py] lie inside that condition. *)
Lemma chunk_text_terminates_in_slider_ranges
    (text : pystr) (chunk_size overlap : Z) :
  300 <= chunk_size <= 1500 ->
  0 <= overlap <= 200 ->
  exists fuel cs, chunk_text fuel text chunk_size overlap = Some (Ok cs).
Proof.
  intros Hsize Hov.
  destruct (chunk_text_terminates text chunk_size overlap) as (fuel & cs & H & _).
  - lia.
  - unfold window_step. lia.
  - eauto.
Qed.

(** C5 as stated fails: with [chunk_size = 7] and [overlap = 0] the
    48-character text ["aaaaa." * 8] is cut after every full stop into 8
    chunks, more than [48 / (7 - 0) + 1], whether the quotient is rounded
    down (7) or not (55/7). *)
Lemma chunk_count_exceeds_len_over_stride :
  exists cs,
    chunk_text 9 short_sentences 7 0 = Some (Ok cs)
    /\ len (normalize short_sentences) = 48
    /\ len cs = 8
    /\ ~ (len cs <= len (normalize short_sentences) / (7 - 0) + 1)
    /\ ~ (len cs * (7 - 0) <= len (normalize short_sentences) + (7 - 0)).
Proof.
  eexists. split; [run|].
  split; [run|]. split; [run|].
  split; vm_compute; intros H; apply H; reflexivity.
Qed.

(** C5 (amended). When [window_step], the least advance of [end] over
    [start] ([min(size, max(int(size * 0.7), size - 50) + 2)]), exceeds
    the overlap, [chunk_text] returns, and the number of chunks is at most
    [len(normalized_text) / (window_step - overlap) + 1]. *)
Theorem chunk_count_bound (text : pystr) (chunk_size overlap : Z) :
  0 < chunk_size ->
  0 <= overlap ->
  overlap < window_step chunk_size ->
  exists fuel cs,
    chunk_text fuel text chunk_size overlap = Some (Ok cs)
    /\ len cs <= len (normalize text) / (window_step chunk_size - overlap) + 1.
Proof.
  intros Hsize _ Hm. apply chunk_text_terminates; lia.
Qed.

Lemma chunk_count_bound_witness :
  exists fuel cs,
    chunk_text fuel short_sentences 7 0 = Some (Ok cs)
    /\ len cs <= len (normalize short_sentences) / (window_step 7 - 0) + 1.
Proof.
  apply (chunk_count_bound short_sentences 7 0).
  - lia.
  - lia.
  - run.
Defined.


(** C9. Every chunk [chunk_text] returns, and every chunk its loop has
    appended after any number of iterations, is at most [chunk_size + 1]
    characters long; and that length is reached: the backward search
    starts at offset [end] itself, so a full stop sitting at offset 10 of
    a window of size 10 ends an 11-character chunk. *)
Theorem chunk_length_at_most_size_plus_one :
  (forall (text : pystr) (chunk_size overlap : Z),
      0 < chunk_size -> 0 <= overlap < chunk_size ->
      (forall fuel cs,
          chunk_text fuel text chunk_size overlap = Some (Ok cs) ->
          Forall (fun c => len c <= chunk_size + 1) cs)
      /\ (forall n st,
            chunk_steps n (normalize text) chunk_size overlap 0 [] = Ok st ->
            Forall (fun c => len c <= chunk_size + 1) (snd st)))
  /\ (getitem stop_at_window_end 10 = Ok 46%N
      /\ exists c rest,
           chunk_text 3 stop_at_window_end 10 0 = Some (Ok (c :: rest))
           /\ len c = 10 + 1).
Proof.
  split.
  - intros text chunk_size overlap Hsize _. split.
    + intros fuel cs H. unfold chunk_text in H.
      destruct (falsy text || falsy (strip text)).
      * inversion H. constructor.
      * eapply chunk_loop_lengths; [exact Hsize| |exact H]. constructor.
    + intros n st H.
      eapply chunk_steps_lengths; [exact Hsize| |exact H]. constructor.
  - split; [run|]. eexists _, _. split; run.
Qed.

Lemma chunk_length_at_most_size_plus_one_witness :
  Forall (fun c => len c <= 10 + 1)
         [str "aaaaaaaaaa."; str "bbb"].
Proof.
  apply (proj1 (proj1 chunk_length_at_most_size_plus_one stop_at_window_end 10 0
                  ltac:(lia) ltac:(lia)) 3%nat).
  run.
Defined.

End ChunkerClaims.

(** ** Page locator *)

Lemma getitem_In {A : Type} (s : list A) (i : Z) (a : A) :
  getitem s i = Ok a -> In a s.
Proof.
  unfold getitem. destruct (_ && _); [|discriminate].
  destruct (nth_error s _) eqn:E; [|discriminate].
  intros H. inversion H; subst. eapply nth_error_In; eauto.
Qed.

Lemma getitem_minus_one {A : Type} (s : list A) (d : A) :
  s <> [] -> getitem s (-1) = Ok (last s d).
Proof.
  intros Hs. unfold getitem.
  assert (Hlen : 0 < len s).
  { destruct s; [contradiction|]. unfold len. simpl. lia. }
  assert (Hnth : nth_error s (Z.to_nat (-1 + len s)) = Some (last s d)).
  { pose proof (f_equal (@List.length A) (app_removelast_last d Hs)) as E.
    rewrite length_app in E. simpl in E.
    rewrite (app_removelast_last d Hs) at 1.
    rewrite nth_error_app2 by (unfold len; lia).
    replace (Z.to_nat (-1 + len s) - List.length (removelast s))%nat
      with 0%nat by (unfold len; lia).
    reflexivity. }
  change (-1 <? 0) with true. cbv iota.
  destruct (Z.leb_spec 0 (-1 + len s)); [|lia].
  destruct (Z.ltb_spec (-1 + len s) (len s)); [|lia].
  cbv [andb]. rewrite Hnth. reflexivity.
Qed.

Lemma last_nonempty_default {A : Type} (s : list A) (d d' : A) :
  s <> [] -> last s d = last s d'.
Proof.
  induction s as [|a s IH]; intros Hs; [contradiction|].
  destruct s as [|b s]; [reflexivity|].
  change (last (b :: s) d = last (b :: s) d'). apply IH. discriminate.
Qed.

Section PageLocatorFacts.
Import PageLocator.
Context {U : Unicode}.

Lemma digits_value_nonneg (ds : list N) : 0 <= digits_value ds.
Proof. unfold digits_value. lia. Qed.

Lemma scan_markers_facts (s : pystr) :
  forall (skip : nat) (off : Z),
  Forall (fun m => off <= fst m) (scan_markers skip off s).
Proof.
  induction s as [|c s IH]; intros skip off; simpl; [constructor|].
  assert (Hnext : forall k,
             Forall (fun m => off <= fst m) (scan_markers k (off + 1) s)).
  { intros k. eapply Forall_impl; [|apply IH]. simpl. intros p Hp. lia. }
  destruct skip as [|k]; [|apply Hnext].
  destruct (match_marker (c :: s)) as [[ds l]|] eqn:E; [|apply Hnext].
  constructor; [|apply Hnext].
  simpl. lia.
Qed.

Lemma page_markers_facts (full_text : pystr) :
  Forall (fun p => 0 <= fst p /\ 0 <= snd p) (page_markers full_text).
Proof.
  unfold page_markers, page_matches. apply Forall_map.
  eapply Forall_impl; [|apply (scan_markers_facts full_text 0 0)].
  intros m Hm. simpl. split; [exact Hm|apply digits_value_nonneg].
Qed.

(** The first match found has the least offset. *)
Lemma scan_markers_first_least (s : pystr) :
  forall (skip : nat) (off : Z) (m : Z * list N) (rest : list (Z * list N)),
  scan_markers skip off s = m :: rest ->
  Forall (fun p => fst m <= fst p) (m :: rest).
Proof.
  induction s as [|c s IH]; intros skip off m rest H; simpl in H;
    [discriminate|].
  destruct skip as [|k]; [|eapply IH; eauto].
  destruct (match_marker (c :: s)) as [[ds l]|]; [|eapply IH; eauto].
  inversion H; subst. constructor; [simpl; lia|].
  eapply Forall_impl; [|apply (scan_markers_facts s (l - 1) (off + 1))].
  simpl. intros p Hp. lia.
Qed.

Lemma page_markers_first_least (full_text : pystr) (o n : Z)
    (rest : list (Z * Z)) :
  page_markers full_text = (o, n) :: rest ->
  Forall (fun p => o <= fst p) ((o, n) :: rest).
Proof.
  unfold page_markers, page_matches.
  destruct (scan_markers 0 0 full_text) as [|m ms] eqn:E; [discriminate|].
  intros H. rewrite <- H.
  assert (Ho : o = fst m) by (simpl in H; inversion H; reflexivity).
  rewrite Ho. apply Forall_map.
  eapply Forall_impl; [|apply (scan_markers_first_least _ _ _ _ _ E)].
  intros p Hp. exact Hp.
Qed.

(** The comprehension converts every match, or raises. *)
Lemma convert_matches_ok (ms : list (Z * list N)) :
  Forall (fun m => len (snd m) <= int_max_str_digits) ms ->
  convert_matches ms = Ok (map marker_value ms).
Proof.
  induction 1 as [|m ms Hm _ IH]; [reflexivity|].
  simpl. unfold int_of_digits.
  destruct (Z.ltb_spec int_max_str_digits (len (snd m))); [lia|].
  simpl. rewrite IH. reflexivity.
Qed.

Lemma convert_matches_raise (ms : list (Z * list N)) :
  ~ Forall (fun m => len (snd m) <= int_max_str_digits) ms ->
  exists e, convert_matches ms = Raise e.
Proof.
  induction ms as [|m ms IH]; intros Hn; [exfalso; apply Hn; constructor|].
  simpl. unfold int_of_digits.
  destruct (Z.ltb_spec int_max_str_digits (len (snd m))) as [Hlt|Hle];
    [eexists; reflexivity|].
  simpl. destruct IH as [e He].
  { intros Hall. apply Hn. constructor; assumption. }
  rewrite He. eexists; reflexivity.
Qed.

Lemma convert_matches_cases (ms : list (Z * list N)) :
  convert_matches ms = Ok (map marker_value ms)
  \/ exists e, convert_matches ms = Raise e.
Proof.
  induction ms as [|m ms IH]; [left; reflexivity|].
  simpl. destruct (int_of_digits (snd m)) as [n|e] eqn:En;
    [|right; eexists; reflexivity].
  assert (n = digits_value (snd m)) as ->.
  { unfold int_of_digits in En. destruct (_ <? _); [discriminate|].
    inversion En; reflexivity. }
  simpl. destruct IH as [->|[e ->]]; [left; reflexivity|].
  right; eexists; reflexivity.
Qed.

Lemma page_list_ok (full_text : pystr) :
  markers_convert full_text ->
  page_list full_text = Ok (page_markers full_text).
Proof. intros H. apply convert_matches_ok. exact H. Qed.

(** A marker that [int] refuses makes [estimate_page] return 1. *)
Lemma estimate_page_unconvertible (chunk_text full_text : pystr) :
  ~ markers_convert full_text -> estimate_page chunk_text full_text = 1.
Proof.
  intros H. apply convert_matches_raise in H. destruct H as [e He].
  unfold estimate_page, estimate_page_try, page_list.
  rewrite He. reflexivity.
Qed.

Lemma markers_convert_check (full_text : pystr) :
  forallb (fun m => len (snd m) <=? int_max_str_digits)
          (page_matches full_text) = true ->
  markers_convert full_text.
Proof.
  intros H. unfold markers_convert. apply Forall_forall. intros m Hin.
  rewrite forallb_forall in H. apply H in Hin. lia.
Qed.

(** No interval holds a position that lies before every marker. *)
Lemma interval_loop_before_all (pages : list (Z * Z)) (pos : Z) (n : nat) :
  (forall p, In p pages -> pos < fst p) ->
  forall i, 0 <= i -> i + Z.of_nat n <= len pages - 1 ->
  interval_loop pages pos i n = Ok None.
Proof.
  intros Hall. induction n as [|n IH]; intros i Hi Hn; simpl; [reflexivity|].
  destruct (getitem_in_range pages i ltac:(lia)) as [p Hp].
  destruct (getitem_in_range pages (i + 1) ltac:(lia)) as [q Hq].
  rewrite Hp, Hq. simpl.
  pose proof (Hall p (getitem_In _ _ _ Hp)).
  destruct (Z.leb_spec (fst p) pos); [lia|]. simpl.
  apply IH; lia.
Qed.

Lemma interval_loop_found (pages : list (Z * Z)) (pos : Z) (n : nat) :
  forall i v, interval_loop pages pos i n = Ok (Some v) ->
  exists p, In p pages /\ snd p = v.
Proof.
  induction n as [|n IH]; intros i v H; simpl in H; [discriminate|].
  destruct (getitem pages i) as [p|] eqn:Hp; simpl in H; [|discriminate].
  destruct (getitem pages (i + 1)) as [q|]; simpl in H; [|discriminate].
  destruct (_ && _).
  - inversion H; subst. exists p. split; [eapply getitem_In; eauto|reflexivity].
  - eapply IH; eauto.
Qed.

(** What [estimate_page] returns is 1 or the number of a marker. *)
Lemma estimate_page_cases (chunk_text full_text : pystr) :
  estimate_page chunk_text full_text = 1
  \/ exists p, In p (page_markers full_text)
               /\ snd p = estimate_page chunk_text full_text.
Proof.
  unfold estimate_page, estimate_page_try, page_list.
  destruct (convert_matches_cases (page_matches full_text)) as [->|[e ->]];
    [|left; reflexivity].
  fold (page_markers full_text). cbn [bind].
  destruct (falsy (page_markers full_text)) eqn:Hf; [left; reflexivity|].
  destruct (find full_text chunk_text <? 0); [left; reflexivity|].
  destruct (interval_loop _ _ _ _) as [[v|]|] eqn:Hl; simpl.
  - right. apply interval_loop_found in Hl. destruct Hl as (p & Hin & <-).
    eauto.
  - destruct (getitem (page_markers full_text) (-1)) as [p|] eqn:Hg; simpl.
    + right. exists p. split; [eapply getitem_In; eauto|reflexivity].
    + left. reflexivity.
  - left. reflexivity.
Qed.

(** C6 (amended). [estimate_page] never raises and returns a number
    [>= 0]; it returns 1 when [full_text] holds no marker and when
    [chunk_text] does not occur in [full_text]; and it returns a number
    [>= 1] whenever every marker of [full_text] carries a number [>= 1]. *)
Theorem estimate_page_total_and_bounded (chunk_text full_text : pystr) :
  0 <= estimate_page chunk_text full_text
  /\ (page_markers full_text = [] -> estimate_page chunk_text full_text = 1)
  /\ (find full_text chunk_text < 0 -> estimate_page chunk_text full_text = 1)
  /\ ((forall p, In p (page_markers full_text) -> 1 <= snd p) ->
      1 <= estimate_page chunk_text full_text).
Proof.
  split; [|split; [|split]].
  - destruct (estimate_page_cases chunk_text full_text) as [->|(p & Hin & <-)];
      [lia|].
    pose proof (page_markers_facts full_text) as Hall.
    rewrite Forall_forall in Hall. apply Hall in Hin. lia.
  - intros Hnone. unfold estimate_page, estimate_page_try, page_list.
    unfold page_markers in Hnone. apply map_eq_nil in Hnone.
    rewrite Hnone. reflexivity.
  - intros Hneg. unfold estimate_page, estimate_page_try.
    destruct (page_list full_text) as [pages|e]; [|reflexivity].
    cbn [bind]. destruct (falsy pages); [reflexivity|].
    destruct (Z.ltb_spec (find full_text chunk_text) 0); [reflexivity|lia].
  - intros Hpos.
    destruct (estimate_page_cases chunk_text full_text) as [->|(p & Hin & <-)];
      [lia|].
    apply Hpos. exact Hin.
Qed.

(** C10 (amended). When [full_text] holds a marker, every marker has at
    most 4300 digits, so that [int] converts it, and the first occurrence
    of [chunk_text] lies before the first marker, no interval between two
    markers contains it and [estimate_page] returns the number of the
    last marker. *)
Theorem estimate_page_before_first_marker
    (chunk_text full_text : pystr) (o n : Z) (rest : list (Z * Z)) :
  markers_convert full_text ->
  page_markers full_text = (o, n) :: rest ->
  0 <= find full_text chunk_text < o ->
  estimate_page chunk_text full_text = snd (last ((o, n) :: rest) (o, n)).
Proof.
  intros Hconv Hpages Hpos.
  assert (Hmono : Forall (fun p => o <= fst p) ((o, n) :: rest))
    by (eapply page_markers_first_least; exact Hpages).
  unfold estimate_page, estimate_page_try.
  rewrite (page_list_ok _ Hconv), Hpages. cbn [bind falsy].
  destruct (Z.ltb_spec (find full_text chunk_text) 0); [lia|].
  rewrite (interval_loop_before_all ((o, n) :: rest) (find full_text chunk_text));
    [| |lia|unfold len; simpl List.length; lia].
  - simpl bind. cbv iota.
    rewrite (getitem_minus_one ((o, n) :: rest) (o, n)) by discriminate.
    reflexivity.
  - intros p Hin. rewrite Forall_forall in Hmono. apply Hmono in Hin. lia.
Qed.

End PageLocatorFacts.

Section PageLocatorRuns.
Import PageLocator.

(** C6 as stated fails: a marker may carry the number 0, and the page of a
    chunk that follows it is then 0. *)
Lemma estimate_page_zero_marker :
  @page_markers Stub.ascii_unicode (str "[PAGE 0]x") = [(0, 0)]
  /\ find (str "[PAGE 0]x") (str "x") = 8
  /\ @estimate_page Stub.ascii_unicode (str "x") (str "[PAGE 0]x") = 0
  /\ ~ (1 <= @estimate_page Stub.ascii_unicode (str "x") (str "[PAGE 0]x")).
Proof.
  repeat split; try (run).
  vm_compute. intros H. apply H. reflexivity.
Qed.

Lemma estimate_page_total_and_bounded_witness :
  @estimate_page Stub.ascii_unicode (str "zzz") (str "[PAGE 4] text") = 1
  /\ 1 <= @estimate_page Stub.ascii_unicode (str "text") (str "[PAGE 4] text").
Proof.
  split.
  - apply (@estimate_page_total_and_bounded Stub.ascii_unicode
             (str "zzz") (str "[PAGE 4] text")).
    run.
  - apply (@estimate_page_total_and_bounded Stub.ascii_unicode
             (str "text") (str "[PAGE 4] text")).
    vm_compute. intros p [<-|[]]. vm_compute. discriminate.
Defined.

(** C10 as stated fails: the text below holds two markers and the chunk
    occurs before the first, but the second marker has 4301 digits;
    [int] raises on it, the [except] catches that, and [estimate_page]
    returns 1 instead of the number of the last marker. *)
Lemma estimate_page_oversized_marker :
  let full_text :=
    str "intro [PAGE 3] a [PAGE " ++ repeat 55%N 4301 ++ str "]" in
  map fst (@page_markers Stub.ascii_unicode full_text) = [6; 17]
  /\ find full_text (str "intro") = 0
  /\ @estimate_page Stub.ascii_unicode (str "intro") full_text = 1
  /\ 1 < snd (last (@page_markers Stub.ascii_unicode full_text) (0, 0))
  /\ ~ (forall o n rest,
          @page_markers Stub.ascii_unicode full_text = (o, n) :: rest ->
          0 <= find full_text (str "intro") < o ->
          @estimate_page Stub.ascii_unicode (str "intro") full_text
          = snd (last ((o, n) :: rest) (o, n))).
Proof.
  intros full_text.
  assert (H1 : map fst (@page_markers Stub.ascii_unicode full_text) = [6; 17])
    by run.
  assert (H2 : find full_text (str "intro") = 0) by run.
  assert (H3 : @estimate_page Stub.ascii_unicode (str "intro") full_text = 1)
    by run.
  assert (H4 : (1 <? snd (last (@page_markers Stub.ascii_unicode full_text)
                            (0, 0))) = true) by run.
  apply Z.ltb_lt in H4.
  repeat split; try assumption.
  intros H.
  destruct (@page_markers Stub.ascii_unicode full_text) as [|[o n] rest] eqn:E;
    [discriminate|].
  specialize (H o n rest eq_refl).
  simpl in H1. inversion H1; subst o.
  rewrite H2, H3 in H. specialize (H ltac:(lia)).
  rewrite (last_nonempty_default _ (0, 0) (6, n)) in H4 by discriminate.
  lia.
Qed.

Lemma estimate_page_before_first_marker_witness :
  @estimate_page Stub.ascii_unicode (str "intro") (str "intro [PAGE 3] a [PAGE 7] b")
  = 7.
Proof.
  apply (@estimate_page_before_first_marker Stub.ascii_unicode
           (str "intro") (str "intro [PAGE 3] a [PAGE 7] b") 6 3 [(17, 7)]).
  - apply markers_convert_check. run.
  - run.
  - vm_compute. split; [discriminate|reflexivity].
Defined.

End PageLocatorRuns.

(** ** Hybrid ranker *)

Lemma Qltb_lt (a b : Q) : Ranker.Qltb a b = true <-> (a < b)%Q.
Proof.
  unfold Ranker.Qltb. rewrite negb_true_iff.
  split.
  - intros H. apply Qnot_le_lt. intros Hle.
    apply Qle_bool_iff in Hle. congruence.
  - intros H. destruct (Qle_bool b a) eqn:E; [|reflexivity].
    apply Qle_bool_iff in E. apply Qlt_not_le in H. contradiction.
Qed.

Lemma Qltb_ge (a b : Q) : Ranker.Qltb a b = false <-> (b <= a)%Q.
Proof.
  unfold Ranker.Qltb. rewrite negb_false_iff. apply Qle_bool_iff.
Qed.

Lemma In_slice {A : Type} (s : list A) (a b : Z) (x : A) :
  In x (slice s a b) -> In x s.
Proof.
  unfold slice. intros H.
  set (lo := Z.to_nat (clamp_index (len s) a)) in *.
  set (n := Z.to_nat (clamp_index (len s) b - clamp_index (len s) a)) in *.
  rewrite <- (firstn_skipn lo s). apply in_or_app. right.
  rewrite <- (firstn_skipn n (skipn lo s)). apply in_or_app. left. exact H.
Qed.

Lemma In_insert_desc (x y : pystr * Q) (l : list (pystr * Q)) :
  In y (Ranker.insert_desc x l) <-> y = x \/ In y l.
Proof.
  induction l as [|z l IH]; simpl.
  - intuition.
  - destruct (Ranker.Qltb (snd x) (snd z)); simpl; rewrite ?IH; intuition.
Qed.

Lemma In_sorted_desc (y : pystr * Q) (l : list (pystr * Q)) :
  In y (Ranker.sorted_desc l) <-> In y l.
Proof.
  induction l as [|x l IH]; simpl; [tauto|].
  rewrite In_insert_desc, IH. intuition.
Qed.

Lemma fold_left_Qmax_ge (l : list Q) :
  forall x y, In y (x :: l) -> (y <= fold_left Qmax l x)%Q.
Proof.
  induction l as [|z l IH]; intros x y Hin; simpl.
  - destruct Hin as [<-|[]]. apply Qle_refl.
  - destruct Hin as [<-|Hin].
    + eapply Qle_trans; [apply (Q.le_max_l x z)|].
      apply IH. left. reflexivity.
    + destruct Hin as [<-|Hin].
      * eapply Qle_trans; [apply (Q.le_max_r x z)|].
        apply IH. left. reflexivity.
      * apply IH. right. exact Hin.
Qed.

Lemma array_max_ge (xs : list Q) (m : Q) :
  Ranker.array_max xs = Ok m -> forall y, In y xs -> (y <= m)%Q.
Proof.
  destruct xs as [|x rest]; simpl; [discriminate|].
  intros H y Hin. inversion H; subst.
  apply fold_left_Qmax_ge. exact Hin.
Qed.

(** Every element of a sum of arrays is the sum of two elements. *)
Lemma array_add_elems (xs ys zs : list Q) :
  Ranker.array_add xs ys = Ok zs ->
  forall z, In z zs -> exists x y, In x xs /\ In y ys /\ z = (x + y)%Q.
Proof.
  unfold Ranker.array_add. intros H z Hz.
  destruct (Nat.eqb _ _).
  - inversion H; subst. apply in_map_iff in Hz.
    destruct Hz as ([x y] & <- & Hin).
    exists x, y. split; [eapply in_combine_l; eauto|].
    split; [eapply in_combine_r; eauto|reflexivity].
  - destruct xs as [|x [|x' xs]].
    + destruct ys as [|y [|y' ys]]; try discriminate.
      inversion H; subst. destruct Hz.
    + inversion H; subst. apply in_map_iff in Hz.
      destruct Hz as (y & <- & Hin).
      exists x, y. simpl. auto.
    + destruct ys as [|y [|y' ys]]; try discriminate.
      assert (Hz' : In z (map (fun x0 => x0 + y)%Q (x :: x' :: xs)))
        by (inversion H; subst; exact Hz).
      apply in_map_iff in Hz'.
      destruct Hz' as (x0 & <- & Hin).
      exists x0, y. split; [exact Hin|]. split; [left|]; reflexivity.
Qed.

(** ** Substring search *)

Lemma startswith_iff (p s : pystr) :
  startswith p s = true <-> exists post, s = p ++ post.
Proof.
  revert s. induction p as [|a p IH]; intros s; simpl.
  - split; eauto.
  - destruct s as [|b s].
    + split; [discriminate|]. intros [post H]. discriminate.
    + rewrite andb_true_iff, N.eqb_eq, IH. split.
      * intros [-> [post ->]]. eauto.
      * intros [post H]. inversion H. eauto.
Qed.

Lemma find_from_range (sub s : pystr) :
  forall i, find_from sub s i = -1 \/ i <= find_from sub s i.
Proof.
  induction s as [|c s IH]; intros i; simpl.
  - destruct (startswith sub []); [right; lia|left; reflexivity].
  - destruct (startswith sub (c :: s)); [right; lia|].
    destruct (IH (i + 1)); [left; assumption|right; lia].
Qed.

Lemma find_from_occurs (sub s : pystr) :
  forall i, 0 <= i -> (0 <= find_from sub s i <-> occurs_in sub s).
Proof.
  induction s as [|c s IH]; intros i Hi.
  - simpl. destruct (startswith sub []) eqn:E.
    + split; [|lia]. intros _. apply startswith_iff in E.
      destruct E as [post E]. exists [], post. exact E.
    + split; [lia|]. intros (pre & post & H).
      destruct pre; [|discriminate].
      assert (startswith sub [] = true)
        by (apply startswith_iff; exists post; exact H).
      congruence.
  - cbn [find_from]. destruct (startswith sub (c :: s)) eqn:E.
    + split; [|lia]. intros _. apply startswith_iff in E.
      destruct E as [post E]. exists [], post. exact E.
    + rewrite (IH (i + 1)) by lia. split.
      * intros (pre & post & ->). exists (c :: pre), post. reflexivity.
      * intros (pre & post & H). destruct pre as [|c' pre].
        -- assert (startswith sub (c :: s) = true)
             by (apply startswith_iff; exists post; exact H).
           congruence.
        -- inversion H; subst. exists pre, post. reflexivity.
Qed.

Lemma contains_iff (p s : pystr) : contains p s = true <-> occurs_in p s.
Proof.
  unfold contains, find. rewrite Z.leb_le.
  apply find_from_occurs. lia.
Qed.

Lemma Forall2_In_right {A B : Type} (R : A -> B -> Prop) (l : list A) (l' : list B) :
  Forall2 R l l' -> forall b, In b l' -> exists a, In a l /\ R a b.
Proof.
  induction 1 as [|a b l l' Hab _ IH]; intros b0 Hin; [destruct Hin|].
  destruct Hin as [<-|Hin].
  - exists a. split; [left; reflexivity|exact Hab].
  - destruct (IH b0 Hin) as (a0 & Ha0 & HR). exists a0. split; [right|]; assumption.
Qed.

Section RankerFacts.
Import Ranker.
Context {U : Unicode} {C : Collaborators}.


Lemma is_definition_chunk_iff (text query : pystr) :
  is_definition_chunk text query = true <-> has_definition_pattern text query.
Proof.
  unfold is_definition_chunk, has_definition_pattern.
  fold (definition_patterns (lower query)).
  rewrite existsb_exists. split.
  - intros (p & Hin & Hc). exists p. split; [exact Hin|].
    apply contains_iff. exact Hc.
  - intros (p & Hin & Ho). exists p. split; [exact Hin|].
    apply contains_iff. exact Ho.
Qed.



Lemma rank_loop_spec (query : pystr) (index : Index) (combined : list Q)
    (idxs : list nat) :
  forall acc res,
  rank_loop query index combined idxs acc = Ok res ->
  exists pool final,
    Forall2 (candidate index combined) idxs pool
    /\ Forall2 (rescored query) pool final
    /\ res = acc ++ filter above_threshold final.
Proof.
  induction idxs as [|idx idxs IH]; intros acc res H; simpl in H.
  - inversion H; subst. exists [], []. simpl. rewrite app_nil_r.
    repeat split; constructor.
  - destruct (nth_error (chunks index) idx) as [chunk|] eqn:Hc; [|discriminate].
    destruct (nth_error combined idx) as [score|] eqn:Hs; [|discriminate].
    apply IH in H. destruct H as (pool & final & Hpool & Hfinal & ->).
    set (score' := if is_definition_chunk chunk query
                   then Qmin (score * (13 # 10)) 1 else score) in *.
    exists ((chunk, score) :: pool), ((chunk, score') :: final).
    split; [constructor; [split; assumption|exact Hpool]|].
    split.
    + constructor; [|exact Hfinal].
      unfold rescored. simpl. split; [reflexivity|].
      subst score'.
      destruct (is_definition_chunk chunk query) eqn:Hd.
      * split.
        -- intros _. split; [reflexivity|]. split.
           ++ apply Q.le_min_r.
           ++ intros Hge. apply Q.min_r. exact Hge.
        -- intros Hno. exfalso. apply Hno.
           apply is_definition_chunk_iff. exact Hd.
      * split; [|reflexivity].
        intros Hyes. apply is_definition_chunk_iff in Hyes. congruence.
    + simpl. unfold above_threshold at 2. simpl.
      destruct (Qltb (1 # 10) score'); [|reflexivity].
      rewrite <- app_assoc. reflexivity.
Qed.

(** [search], when it returns, returns the rescored pool, filtered by the
    threshold, sorted and cut to [k]. *)
Lemma search_spec (query : pystr) (index : Index) (k : Z)
    (results : list (pystr * Q)) :
  search query index k = Ok results ->
  exists combined pool final,
    combined_scores query index = Ok combined
    /\ Forall2 (candidate index combined) (top_k_idx combined k) pool
    /\ Forall2 (rescored query) pool final
    /\ results = slice (sorted_desc (filter above_threshold final)) 0 k.
Proof.
  unfold search. destruct (falsy query || falsy (strip query)); [discriminate|].
  destruct (combined_scores query index) as [combined|]; simpl; [|discriminate].
  destruct (rank_loop _ _ _ _ _) as [res|] eqn:Hloop; simpl; [|discriminate].
  intros H. inversion H; subst.
  apply rank_loop_spec in Hloop.
  destruct Hloop as (pool & final & Hpool & Hfinal & ->).
  exists combined, pool, final. simpl. auto.
Qed.

Lemma search_results_from_final (query : pystr) (index : Index) (k : Z)
    (results : list (pystr * Q)) :
  search query index k = Ok results ->
  exists combined,
    combined_scores query index = Ok combined
    /\ forall r, In r results ->
       (1 # 10 < snd r)%Q
       /\ exists c, rescored query c r /\ In (snd c) combined.
Proof.
  intros H. apply search_spec in H.
  destruct H as (combined & pool & final & Hc & Hpool & Hfinal & ->).
  exists combined. split; [exact Hc|].
  intros r Hr. apply In_slice, In_sorted_desc, filter_In in Hr.
  destruct Hr as [Hin Hthr]. split; [apply Qltb_lt; exact Hthr|].
  destruct (Forall2_In_right _ _ _ Hfinal r Hin) as (c & Hcin & Hres).
  exists c. split; [exact Hres|].
  destruct (Forall2_In_right _ _ _ Hpool c Hcin) as (idx & _ & _ & Hnth).
  eapply nth_error_In; eauto.
Qed.

(** C4. Every candidate of the [3k] pool is rescored as the claim says:
    when its lower-cased text contains one of the six patterns built from
    the lower-cased query, its score becomes [min(score * 1.3, 1.0)],
    which never exceeds 1 and is 1 when the product passes 1; otherwise
    its score is unchanged. The results are these rescored candidates,
    filtered by the threshold, sorted and cut to [k]. *)
Theorem definition_boost_applied_to_pool (query : pystr) (index : Index) (k : Z)
    (results : list (pystr * Q)) :
  search query index k = Ok results ->
  exists combined pool final,
    combined_scores query index = Ok combined
    /\ Forall2 (candidate index combined) (top_k_idx combined k) pool
    /\ Forall2 (rescored query) pool final
    /\ results = slice (sorted_desc (filter above_threshold final)) 0 k.
Proof. apply search_spec. Qed.

(** C7. No result of [search] has a final score [<= 0.1]. *)
Theorem results_above_threshold (query : pystr) (index : Index) (k : Z)
    (results : list (pystr * Q)) :
  search query index k = Ok results ->
  Forall (fun r => ~ (snd r <= 1 # 10)%Q) results.
Proof.
  intros H. apply search_results_from_final in H.
  destruct H as (combined & _ & Hall).
  apply Forall_forall. intros r Hr.
  destruct (Hall r Hr) as [Hlt _].
  apply Qlt_not_le. exact Hlt.
Qed.

End RankerFacts.

Section RankerClaims.
Import Ranker.
Context {U : Unicode} {C : Collaborators}.

Lemma lexical_scores_le_one (query : pystr) (index : Index) (lex : list Q) :
  lexical_scores query index = Ok lex ->
  forall b, In b lex -> (b <= 1)%Q.
Proof.
  unfold lexical_scores.
  destruct (array_max _) as [m|] eqn:Hm; simpl; [|discriminate].
  intros H b Hb. inversion H; subst; clear H.
  pose proof (array_max_ge _ _ Hm) as Hmax.
  destruct (Qltb 0 m) eqn:Hpos.
  - apply Qltb_lt in Hpos.
    apply in_map_iff in Hb. destruct Hb as (x & <- & Hx).
    apply Qle_shift_div_r; [exact Hpos|].
    rewrite Qmult_1_l. apply Hmax. exact Hx.
  - apply Qltb_ge in Hpos.
    apply Qle_trans with m; [apply Hmax; exact Hb|].
    apply Qle_trans with 0%Q; [exact Hpos|]. discriminate.
Qed.

Lemma combined_scores_le_one (query : pystr) (index : Index)
    (sem combined : list Q) :
  semantic_scores query index = Ok sem ->
  Forall (fun s => (-1 <= s <= 1)%Q) sem ->
  combined_scores query index = Ok combined ->
  forall z, In z combined -> (z <= 1)%Q.
Proof.
  intros Hsem Hrange. unfold combined_scores. rewrite Hsem. simpl.
  destruct (lexical_scores query index) as [lex|] eqn:Hlex; simpl;
    [|discriminate].
  intros Hadd z Hz.
  destruct (array_add_elems _ _ _ Hadd z Hz) as (x & y & Hx & Hy & ->).
  apply in_map_iff in Hx. destruct Hx as (s & <- & Hs).
  apply in_map_iff in Hy. destruct Hy as (b & <- & Hb).
  rewrite Forall_forall in Hrange. apply Hrange in Hs.
  pose proof (lexical_scores_le_one _ _ _ Hlex b Hb) as Hb1.
  unfold SEMANTIC_WEIGHT, BM25_WEIGHT. lra.
Qed.

(** C1. For an index built from a non-empty chunk list, a non-empty query
    and [k >= 1], when the semantic dot products lie in [-1, 1] (and with
    the weights 0.7 and 0.3 of [CONFIG]), every score [search] returns
    lies in [0, 1]. *)
Theorem fused_scores_in_unit_interval
    (chunk_list : list pystr) (index : Index) (query : pystr) (k : Z)
    (sem : list Q) (results : list (pystr * Q)) :
  chunk_list <> [] ->
  build_index chunk_list = Ok index ->
  strip query <> [] ->
  1 <= k ->
  semantic_scores query index = Ok sem ->
  Forall (fun s => (-1 <= s <= 1)%Q) sem ->
  search query index k = Ok results ->
  Forall (fun r => (0 <= snd r <= 1)%Q) results.
Proof.
  intros _ _ _ _ Hsem Hrange Hsearch.
  apply search_results_from_final in Hsearch.
  destruct Hsearch as (combined & Hc & Hall).
  pose proof (combined_scores_le_one _ _ _ _ Hsem Hrange Hc) as Hle.
  apply Forall_forall. intros r Hr.
  destruct (Hall r Hr) as (Hthr & c & (_ & Hyes & Hno) & Hin).
  split; [lra|].
  destruct (is_definition_chunk (fst c) query) eqn:Hd.
  - apply is_definition_chunk_iff in Hd. apply Hyes in Hd. tauto.
  - assert (Hn : ~ has_definition_pattern (fst c) query).
    { intros Hp. apply is_definition_chunk_iff in Hp. congruence. }
    rewrite (Hno Hn). apply Hle. exact Hin.
Qed.


(** An index is built from a non-empty chunk list only, and holds one
    embedding and one token list per chunk. *)
Lemma build_index_ok (chunk_list : list pystr) (index : Index) :
  build_index chunk_list = Ok index ->
  chunk_list <> []
  /\ index = {| embeddings := map (fun c => normalized (encode c)) chunk_list;
                bm25 := BM25Okapi (map split chunk_list);
                chunks := chunk_list |}.
Proof.
  unfold build_index, new_BM25Okapi.
  destruct chunk_list as [|c cs]; [discriminate|]. cbn [falsy].
  destruct (forallb _ _); cbn [bind]; [discriminate|].
  intros H. inversion H. split; [discriminate|reflexivity].
Qed.

Lemma build_index_aligned (chunk_list : list pystr) (index : Index) :
  build_index chunk_list = Ok index ->
  aligned index /\ chunks index = chunk_list /\ chunk_list <> [].
Proof.
  intros H. apply build_index_ok in H. destruct H as [Hne ->].
  unfold aligned. simpl. rewrite !length_map. repeat split. exact Hne.
Qed.



Lemma matvec_raise (E : list (list Q)) (v : list Q) (e : exn) :
  matvec E v = Raise e -> e <> query_empty.
Proof.
  induction E as [|row E IH]; simpl; [discriminate|].
  destruct (Nat.eqb _ _).
  - destruct (matvec E v); simpl; [discriminate|].
    intros H. inversion H; subst. apply IH. reflexivity.
  - intros H. inversion H. discriminate.
Qed.

Lemma combined_scores_raise (query : pystr) (index : Index) (e : exn) :
  combined_scores query index = Raise e -> e <> query_empty.
Proof.
  unfold combined_scores.
  destruct (semantic_scores query index) as [sem|e1] eqn:Hsem; simpl.
  - unfold lexical_scores.
    destruct (array_max _) as [m|e2] eqn:Hm; simpl.
    + unfold array_add. destruct (Nat.eqb _ _); [discriminate|].
      destruct (map (Qmult SEMANTIC_WEIGHT) sem) as [|x [|x' xs]];
        destruct (map (Qmult BM25_WEIGHT) _) as [|y [|y' ys]];
        try discriminate; intros H; inversion H; discriminate.
    + destruct (get_scores _ _); [|discriminate].
      simpl in Hm. inversion Hm; subst.
      intros H. inversion H. discriminate.
  - intros H. inversion H; subst. eapply matvec_raise. exact Hsem.
Qed.

Lemma rank_loop_raise (query : pystr) (index : Index) (combined : list Q)
    (idxs : list nat) :
  forall acc e, rank_loop query index combined idxs acc = Raise e ->
  e <> query_empty.
Proof.
  induction idxs as [|idx idxs IH]; intros acc e H; simpl in H; [discriminate|].
  destruct (nth_error (chunks index) idx);
    [destruct (nth_error combined idx)|];
    try (inversion H; discriminate).
  eapply IH; eauto.
Qed.

(** C8. [search] raises the empty-query error exactly when the query is
    empty or holds only whitespace; a query that is non-empty after
    trimming never raises it. *)
Theorem query_empty_error_iff_blank (query : pystr) (index : Index) (k : Z) :
  search query index k = Raise query_empty <-> strip query = [].
Proof.
  unfold search. split.
  - destruct (falsy query || falsy (strip query)) eqn:Hblank.
    + intros _. apply orb_true_iff in Hblank. destruct Hblank as [H|H].
      * destruct query; [reflexivity|discriminate].
      * destruct (strip query); [reflexivity|discriminate].
    + destruct (combined_scores query index) as [combined|e] eqn:Hc; simpl.
      * destruct (rank_loop _ _ _ _ _) as [res|e] eqn:Hl; simpl;
          [discriminate|].
        intros H. inversion H; subst.
        apply rank_loop_raise in Hl. contradiction Hl. reflexivity.
      * intros H. inversion H; subst.
        apply combined_scores_raise in Hc. contradiction Hc. reflexivity.
  - intros Hs. rewrite Hs. rewrite orb_true_r. reflexivity.
Qed.

End RankerClaims.

(** ** The ranker on a fake model *)

Section RankerRuns.
Import Ranker Stub.

Example sample_search_runs :
  build_index sample_chunks = Ok sample_index
  /\ search sample_query sample_index 5 = Ok sample_results
  /\ map fst sample_results = [nth 0 sample_chunks []].
Proof. repeat split; run. Qed.

Lemma fused_scores_in_unit_interval_witness :
  sample_results <> []
  /\ Forall (fun r => (0 <= snd r <= 1)%Q) sample_results.
Proof.
  split; [discriminate|].
  apply (fused_scores_in_unit_interval sample_chunks sample_index sample_query 5
           sample_semantic sample_results).
  - discriminate.
  - run.
  - vm_compute. discriminate.
  - lia.
  - run.
  - repeat constructor; vm_compute; discriminate.
  - run.
Defined.

Lemma definition_boost_applied_to_pool_witness :
  exists combined pool final,
    combined_scores sample_query sample_index = Ok combined
    /\ Forall2 (candidate sample_index combined) (top_k_idx combined 5) pool
    /\ Forall2 (rescored sample_query) pool final
    /\ sample_results = slice (sorted_desc (filter above_threshold final)) 0 5.
Proof.
  apply (definition_boost_applied_to_pool sample_query sample_index 5
           sample_results).
  run.
Defined.

Lemma results_above_threshold_witness :
  Forall (fun r => ~ (snd r <= 1 # 10)%Q) sample_results.
Proof.
  apply (results_above_threshold sample_query sample_index 5 sample_results).
  run.
Defined.



End RankerRuns.

(* ===================================================================== *)
(** * Part IV: further properties                                         *)
(* ===================================================================== *)

(** ** Stripping and whitespace normalisation *)

Lemma lstrip_split (s : pystr) :
  exists pre, s = pre ++ lstrip s /\ forallb isspace pre = true.
Proof.
  induction s as [|c s (pre & Hs & Hpre)]; simpl.
  - exists []. split; reflexivity.
  - destruct (isspace c) eqn:Hc.
    + exists (c :: pre). simpl. rewrite Hc, Hpre. split; [congruence|reflexivity].
    + exists []. split; reflexivity.
Qed.

Lemma lstrip_head (s : pystr) (c : char) (r : pystr) :
  lstrip s = c :: r -> isspace c = false.
Proof.
  induction s as [|d s IH]; simpl; [discriminate|].
  destruct (isspace d) eqn:Hd; [exact IH|].
  intros H. inversion H; subst. exact Hd.
Qed.

Lemma lstrip_all_space (s : pystr) :
  forallb isspace s = true -> lstrip s = [].
Proof.
  induction s as [|c s IH]; simpl; [reflexivity|].
  destruct (isspace c); simpl; [exact IH|discriminate].
Qed.

Lemma forallb_rev {A : Type} (f : A -> bool) (l : list A) :
  forallb f (rev l) = forallb f l.
Proof.
  induction l as [|a l IH]; simpl; [reflexivity|].
  rewrite forallb_app, IH. simpl. rewrite andb_true_r. apply andb_comm.
Qed.

Lemma rstrip_split (s : pystr) :
  exists post, s = rstrip s ++ post /\ forallb isspace post = true.
Proof.
  unfold rstrip. destruct (lstrip_split (rev s)) as (pre & Hs & Hpre).
  exists (rev pre). split.
  - rewrite <- rev_app_distr, <- Hs, rev_involutive. reflexivity.
  - rewrite forallb_rev. exact Hpre.
Qed.

Lemma rstrip_last (s front : pystr) (c : char) :
  rstrip s = front ++ [c] -> isspace c = false.
Proof.
  unfold rstrip. intros H.
  apply (f_equal (@rev char)) in H.
  rewrite rev_involutive, rev_app_distr in H. simpl in H.
  eapply lstrip_head. exact H.
Qed.

(** [strip] removes a run of whitespace at each end and nothing else. *)
Lemma strip_split (s : pystr) :
  exists pre post,
    s = pre ++ strip s ++ post
    /\ forallb isspace pre = true /\ forallb isspace post = true.
Proof.
  unfold strip.
  destruct (lstrip_split s) as (pre & Hs & Hpre).
  destruct (rstrip_split (lstrip s)) as (post & Hl & Hpost).
  exists pre, post. split; [|split; assumption].
  rewrite <- Hl. exact Hs.
Qed.

Lemma strip_no_edge_space (s : pystr) :
  strip s <> [] -> no_edge_space (strip s) = true.
Proof.
  intros Hne. unfold no_edge_space.
  destruct (strip s) as [|c r] eqn:E; [contradiction|].
  apply andb_true_iff. split; apply negb_true_iff.
  - unfold strip in E.
    destruct (rstrip_split (lstrip s)) as (post & Hl & _).
    rewrite E in Hl. simpl in Hl. eapply lstrip_head. exact Hl.
  - unfold strip in E.
    eapply (rstrip_last (lstrip s) (removelast (c :: r))).
    rewrite E. apply app_removelast_last. discriminate.
Qed.

Lemma strip_nil_iff (s : pystr) :
  strip s = [] <-> forallb isspace s = true.
Proof.
  split.
  - intros H. destruct (strip_split s) as (pre & post & Hs & Hpre & Hpost).
    rewrite H in Hs. rewrite Hs. simpl. rewrite forallb_app, Hpre, Hpost.
    reflexivity.
  - intros H. unfold strip. rewrite (lstrip_all_space s H). reflexivity.
Qed.

Lemma ink_app (s t : pystr) : ink (s ++ t) = ink s ++ ink t.
Proof. unfold ink. apply filter_app. Qed.

Lemma ink_all_space (s : pystr) : forallb isspace s = true -> ink s = [].
Proof.
  induction s as [|c s IH]; simpl; [reflexivity|].
  destruct (isspace c); simpl; [exact IH|discriminate].
Qed.

Lemma ink_strip (s : pystr) : ink (strip s) = ink s.
Proof.
  destruct (strip_split s) as (pre & post & Hs & Hpre & Hpost).
  rewrite Hs at 2. rewrite !ink_app.
  rewrite (ink_all_space pre Hpre), (ink_all_space post Hpost), app_nil_r.
  reflexivity.
Qed.

Lemma last_rev_head {A : Type} (s : list A) (d : A) :
  s <> [] -> rev s = last s d :: rev (removelast s).
Proof.
  intros Hs. rewrite (app_removelast_last d Hs) at 1.
  rewrite rev_app_distr. reflexivity.
Qed.

Lemma strip_fixed (s : pystr) : no_edge_space s = true -> strip s = s.
Proof.
  unfold no_edge_space. destruct s as [|c r]; [discriminate|].
  rewrite andb_true_iff, !negb_true_iff. intros [Hc Hl].
  unfold strip. cbn [lstrip]. rewrite Hc.
  unfold rstrip.
  rewrite (last_rev_head (c :: r) c) by discriminate.
  cbn [lstrip]. rewrite Hl.
  rewrite <- (last_rev_head (c :: r) c) by discriminate.
  apply rev_involutive.
Qed.

Lemma ink_sub_ws (s : pystr) : forall b, ink (sub_ws b s) = ink s.
Proof.
  induction s as [|c s IH]; intros b; simpl; [reflexivity|].
  destruct (isspace c) eqn:Hc.
  - destruct b; simpl; rewrite ?IH; reflexivity.
  - simpl. rewrite Hc. simpl. rewrite IH. reflexivity.
Qed.

Lemma sub_ws_only_plain_spaces (s : pystr) :
  forall b, only_plain_spaces (sub_ws b s) = true.
Proof.
  unfold only_plain_spaces.
  induction s as [|c s IH]; intros b; simpl; [reflexivity|].
  destruct (isspace c) eqn:Hc.
  - destruct b; simpl; apply IH.
  - simpl. rewrite Hc. simpl. apply IH.
Qed.

Lemma no_space_runs_cons (c d : char) (x : pystr) :
  no_space_runs (c :: d :: x)
  = negb (isspace c && isspace d) && no_space_runs (d :: x).
Proof. reflexivity. Qed.

Lemma sub_ws_no_space_runs (s : pystr) :
  forall b,
  no_space_runs (sub_ws b s) = true
  /\ (b = true -> match sub_ws b s with
                  | [] => True
                  | c :: _ => isspace c = false
                  end).
Proof.
  induction s as [|c s IH]; intros b; simpl; [auto|].
  destruct (isspace c) eqn:Hc.
  - destruct b.
    + apply IH.
    + split; [|discriminate].
      destruct (IH true) as [Hruns Hhead]. specialize (Hhead eq_refl).
      destruct (sub_ws true s) as [|d x]; [reflexivity|].
      rewrite no_space_runs_cons, Hhead, andb_false_r. exact Hruns.
  - split; [|intros _; exact Hc].
    destruct (IH false) as [Hruns _].
    destruct (sub_ws false s) as [|d x]; [reflexivity|].
    rewrite no_space_runs_cons, Hc. exact Hruns.
Qed.

Lemma no_space_runs_app (s t : pystr) :
  no_space_runs (s ++ t) = true ->
  no_space_runs s = true /\ no_space_runs t = true.
Proof.
  induction s as [|c s IH]; [simpl; auto|].
  destruct s as [|d s].
  - destruct t as [|e t]; [simpl; auto|].
    change ([c] ++ e :: t) with (c :: e :: t).
    rewrite no_space_runs_cons, andb_true_iff. intros [_ H]. auto.
  - change ((c :: d :: s) ++ t) with (c :: d :: (s ++ t)).
    rewrite !no_space_runs_cons.
    rewrite !andb_true_iff. intros [Hcd H]. apply IH in H. tauto.
Qed.

Lemma sub_ws_fixed (s : pystr) :
  forall b,
  only_plain_spaces s = true ->
  no_space_runs s = true ->
  (b = true -> match s with [] => True | c :: _ => isspace c = false end) ->
  sub_ws b s = s.
Proof.
  unfold only_plain_spaces.
  induction s as [|c s IH]; intros b Hplain Hruns Hhead; [reflexivity|].
  simpl in Hplain. apply andb_true_iff in Hplain. destruct Hplain as [Hc Hplain].
  assert (Htail : no_space_runs s = true).
  { apply (no_space_runs_app [c] s). exact Hruns. }
  cbn [sub_ws]. destruct (isspace c) eqn:Hsp.
  - simpl in Hc. apply N.eqb_eq in Hc. subst c.
    destruct b; [specialize (Hhead eq_refl); congruence|].
    apply (f_equal (cons 32%N)). apply IH; [exact Hplain|exact Htail|].
    intros _. destruct s as [|d s]; [exact I|].
    rewrite no_space_runs_cons, Hsp in Hruns.
    apply andb_true_iff in Hruns. destruct Hruns as [Hd _].
    simpl in Hd. apply negb_true_iff in Hd. exact Hd.
  - apply (f_equal (cons c)). apply IH; [exact Hplain|exact Htail|discriminate].
Qed.

Section NormalizeFacts.
Import Chunker.

Lemma normalize_shape (text : pystr) :
  only_plain_spaces (normalize text) = true
  /\ no_space_runs (normalize text) = true.
Proof.
  unfold normalize.
  destruct (strip_split (sub_ws false text)) as (pre & post & Hs & _ & _).
  pose proof (sub_ws_only_plain_spaces text false) as Hplain.
  destruct (sub_ws_no_space_runs text false) as [Hruns _].
  rewrite Hs in Hplain, Hruns. split.
  - unfold only_plain_spaces in *. rewrite !forallb_app in Hplain.
    apply andb_true_iff in Hplain. destruct Hplain as [_ H].
    apply andb_true_iff in H. tauto.
  - apply no_space_runs_app in Hruns. destruct Hruns as [_ H].
    apply no_space_runs_app in H. tauto.
Qed.

Lemma normalize_edges (text : pystr) :
  normalize text = [] \/ no_edge_space (normalize text) = true.
Proof.
  unfold normalize. destruct (strip (sub_ws false text)) eqn:E; [left; reflexivity|].
  right. rewrite <- E. apply strip_no_edge_space. rewrite E. discriminate.
Qed.

(** X1. [text_normalized] holds exactly the non-whitespace characters of
    [text], in order, with single spaces between some of them and none at
    either end; normalising it again changes nothing. *)
Theorem normalize_canonical (text : pystr) :
  ink (normalize text) = ink text
  /\ only_plain_spaces (normalize text) = true
  /\ no_space_runs (normalize text) = true
  /\ (normalize text = [] \/ no_edge_space (normalize text) = true)
  /\ normalize (normalize text) = normalize text.
Proof.
  destruct (normalize_shape text) as [Hplain Hruns].
  pose proof (normalize_edges text) as Hedges.
  split; [|split; [exact Hplain|split; [exact Hruns|split; [exact Hedges|]]]].
  - unfold normalize. rewrite ink_strip. apply ink_sub_ws.
  - unfold normalize at 1.
    rewrite (sub_ws_fixed (normalize text) false Hplain Hruns) by discriminate.
    destruct Hedges as [Hnil|Hedge].
    + rewrite Hnil. reflexivity.
    + apply strip_fixed. exact Hedge.
Qed.

End NormalizeFacts.

(** ** Chunker: what the chunks are *)

Lemma occurs_in_trans (a b c : pystr) :
  occurs_in a b -> occurs_in b c -> occurs_in a c.
Proof.
  intros (p1 & q1 & ->) (p2 & q2 & ->).
  exists (p2 ++ p1), (q1 ++ q2). rewrite <- !app_assoc. reflexivity.
Qed.

Lemma slice_occurs_in (s : pystr) (a b : Z) : occurs_in (slice s a b) s.
Proof.
  unfold slice.
  set (lo := Z.to_nat (clamp_index (len s) a)).
  set (n := Z.to_nat (clamp_index (len s) b - clamp_index (len s) a)).
  exists (firstn lo s), (skipn n (skipn lo s)).
  rewrite (firstn_skipn n (skipn lo s)), (firstn_skipn lo s). reflexivity.
Qed.

Lemma strip_occurs_in (s : pystr) : occurs_in (strip s) s.
Proof.
  destruct (strip_split s) as (pre & post & Hs & _). exists pre, post. exact Hs.
Qed.

Lemma occurs_in_shape (m s : pystr) :
  occurs_in m s ->
  only_plain_spaces s = true -> no_space_runs s = true ->
  only_plain_spaces m = true /\ no_space_runs m = true.
Proof.
  intros (pre & post & ->) Hplain Hruns. split.
  - unfold only_plain_spaces in *. rewrite !forallb_app in Hplain.
    apply andb_true_iff in Hplain. destruct Hplain as [_ H].
    apply andb_true_iff in H. tauto.
  - apply no_space_runs_app in Hruns. destruct Hruns as [_ H].
    apply no_space_runs_app in H. tauto.
Qed.

Lemma ink_nil_iff (s : pystr) : ink s = [] <-> forallb isspace s = true.
Proof.
  split; [|apply ink_all_space].
  induction s as [|c s IH]; simpl; [reflexivity|].
  destruct (isspace c); simpl; [exact IH|discriminate].
Qed.

Lemma firstn_add {A : Type} (n m : nat) (l : list A) :
  firstn (n + m) l = firstn n l ++ firstn m (skipn n l).
Proof.
  revert l. induction n as [|n IH]; intros l; [reflexivity|].
  destruct l as [|a l]; simpl.
  - rewrite firstn_nil. reflexivity.
  - rewrite IH. reflexivity.
Qed.

Lemma firstn_slice {A : Type} (s : list A) (a b : Z) :
  0 <= a <= b -> b <= len s ->
  firstn (Z.to_nat a) s ++ slice s a b = firstn (Z.to_nat b) s.
Proof.
  intros Hab Hb. unfold slice, clamp_index.
  destruct (Z.ltb_spec a 0); [lia|]. destruct (Z.ltb_spec b 0); [lia|].
  rewrite (Z.min_l a (len s)) by lia. rewrite (Z.min_l b (len s)) by lia.
  rewrite <- firstn_add. f_equal. lia.
Qed.

Lemma slice_whole {A : Type} (s : list A) : slice s 0 (len s) = s.
Proof.
  pose proof (firstn_slice s 0 (len s) ltac:(pose proof (len_nonneg s); lia)
                ltac:(lia)) as H.
  simpl in H. rewrite H. unfold len. rewrite Nat2Z.id. apply firstn_all.
Qed.

Section ChunkContents.
Import Chunker.

Variable T : pystr.
Variables chunk_size overlap : Z.

Lemma chunk_iter_inv (start start' : Z) (acc acc' : list pystr) :
  chunk_iter T chunk_size overlap start acc = Ok (start', acc') ->
  exists e,
    window_end T chunk_size start = Ok e
    /\ start' = (if e <? len T then e - overlap else e)
    /\ acc' = (if falsy (strip (slice T start e)) then acc
               else acc ++ [strip (slice T start e)]).
Proof.
  unfold chunk_iter.
  destruct (window_end T chunk_size start) as [e|]; simpl; [|discriminate].
  intros H. inversion H; subst. exists e. auto.
Qed.

(** A property of every non-empty stripped window is a property of every
    chunk. *)
Lemma chunk_loop_Forall (P : pystr -> Prop) :
  (forall a b, strip (slice T a b) <> [] -> P (strip (slice T a b))) ->
  forall (fuel : nat) (start : Z) (acc cs : list pystr),
  Forall P acc ->
  chunk_loop fuel T chunk_size overlap start acc = Some (Ok cs) ->
  Forall P cs.
Proof.
  intros HP. induction fuel as [|fuel IH]; intros start acc cs Hacc H;
    simpl in H; [discriminate|].
  destruct (start <? len T).
  - destruct (chunk_iter T chunk_size overlap start acc) as [[start' acc']|]
      eqn:Hit; [|discriminate].
    apply chunk_iter_inv in Hit. destruct Hit as (e & _ & _ & ->).
    eapply IH; [|exact H].
    destruct (strip (slice T start e)) eqn:E; simpl; [exact Hacc|].
    apply Forall_app. split; [exact Hacc|].
    constructor; [|constructor]. rewrite <- E. apply HP. rewrite E. discriminate.
  - inversion H; subst. exact Hacc.
Qed.

(** The loop only appends. *)
Lemma chunk_loop_extends (fuel : nat) :
  forall (start : Z) (acc cs : list pystr),
  chunk_loop fuel T chunk_size overlap start acc = Some (Ok cs) ->
  exists more, cs = acc ++ more.
Proof.
  induction fuel as [|fuel IH]; intros start acc cs H; simpl in H;
    [discriminate|].
  destruct (start <? len T).
  - destruct (chunk_iter T chunk_size overlap start acc) as [[start' acc']|]
      eqn:Hit; [|discriminate].
    apply chunk_iter_inv in Hit. destruct Hit as (e & _ & _ & ->).
    apply IH in H. destruct H as (more & ->).
    destruct (falsy _); [eauto|].
    exists (strip (slice T start e) :: more). rewrite <- app_assoc. reflexivity.
  - inversion H; subst. exists []. rewrite app_nil_r. reflexivity.
Qed.

End ChunkContents.

Section ChunkerExtras.
Import Chunker.

(** X2. Every chunk [chunk_text] returns is non-empty, neither starts nor ends
    with whitespace, and holds no whitespace but single spaces. *)
Theorem chunks_are_trimmed_and_single_spaced
    (fuel : nat) (text : pystr) (chunk_size overlap : Z) (cs : list pystr) :
  chunk_text fuel text chunk_size overlap = Some (Ok cs) ->
  Forall (fun c => no_edge_space c = true
                   /\ only_plain_spaces c = true
                   /\ no_space_runs c = true) cs.
Proof.
  unfold chunk_text. destruct (falsy text || falsy (strip text)).
  - intros H. inversion H. constructor.
  - apply chunk_loop_Forall; [|constructor].
    intros a b Hne. split; [apply strip_no_edge_space; exact Hne|].
    destruct (normalize_shape text) as [Hplain Hruns].
    apply (occurs_in_shape _ (normalize text)); [|exact Hplain|exact Hruns].
    eapply occurs_in_trans; [apply strip_occurs_in|apply slice_occurs_in].
Qed.

(** X3. Every chunk is a contiguous piece of the normalised text. *)
Theorem chunks_occur_in_normalized_text
    (fuel : nat) (text : pystr) (chunk_size overlap : Z) (cs : list pystr) :
  chunk_text fuel text chunk_size overlap = Some (Ok cs) ->
  Forall (fun c => occurs_in c (normalize text)) cs.
Proof.
  unfold chunk_text. destruct (falsy text || falsy (strip text)).
  - intros H. inversion H. constructor.
  - apply chunk_loop_Forall; [|constructor].
    intros a b _.
    eapply occurs_in_trans; [apply strip_occurs_in|apply slice_occurs_in].
Qed.

Lemma blank_iff (text : pystr) :
  falsy text || falsy (strip text) = true <-> strip text = [].
Proof.
  split.
  - intros H. apply orb_true_iff in H. destruct H as [H|H].
    + destruct text; [reflexivity|discriminate].
    + destruct (strip text); [reflexivity|discriminate].
  - intros H. rewrite H. apply orb_true_r.
Qed.

Lemma normalize_nonblank (text : pystr) :
  strip text <> [] ->
  exists c r, normalize text = c :: r /\ isspace c = false.
Proof.
  intros Hne.
  assert (Hink : ink (normalize text) <> []).
  { unfold normalize. rewrite ink_strip, ink_sub_ws.
    intros H. apply ink_nil_iff, strip_nil_iff in H. contradiction. }
  destruct (normalize_edges text) as [Hnil|Hedge].
  - rewrite Hnil in Hink. contradiction Hink. reflexivity.
  - unfold no_edge_space in Hedge.
    destruct (normalize text) as [|c r]; [discriminate|].
    apply andb_true_iff in Hedge. destruct Hedge as [Hc _].
    apply negb_true_iff in Hc. eauto.
Qed.

(** X4. A text that fits in one window is returned as one chunk, the
    normalised text itself, whatever the overlap. *)
Theorem short_text_is_one_chunk
    (fuel : nat) (text : pystr) (chunk_size overlap : Z) :
  strip text <> [] ->
  len (normalize text) <= chunk_size ->
  chunk_text (S (S fuel)) text chunk_size overlap = Some (Ok [normalize text]).
Proof.
  intros Hne Hfit. unfold chunk_text.
  destruct (falsy text || falsy (strip text)) eqn:Hblank;
    [apply blank_iff in Hblank; contradiction|].
  destruct (normalize_nonblank text Hne) as (c & r & HT & Hc).
  pose proof (normalize_edges text) as Hedges.
  remember (normalize text) as T eqn:HeqT. clear HeqT.
  assert (Hlen : 0 < len T) by (rewrite HT; unfold len; simpl; lia).
  assert (Hwin : window_end T chunk_size 0 = Ok (len T)).
  { unfold window_end. rewrite (Z.min_r (0 + chunk_size) (len T)) by lia.
    rewrite Z.ltb_irrefl. reflexivity. }
  assert (Hstrip : strip (slice T 0 (len T)) = T).
  { rewrite slice_whole. apply strip_fixed.
    destruct Hedges as [Hnil|Hedge]; [|exact Hedge].
    rewrite Hnil in HT. discriminate. }
  assert (Hfalsy : falsy T = false) by (rewrite HT; reflexivity).
  cbn [chunk_loop].
  destruct (Z.ltb_spec 0 (len T)); [|lia].
  unfold chunk_iter. rewrite Hwin. cbn [bind]. rewrite Hstrip, Hfalsy.
  rewrite !(Z.ltb_irrefl (len T)). reflexivity.
Qed.

Lemma chunk_text_nil_iff
    (fuel : nat) (text : pystr) (chunk_size overlap : Z) :
  0 < chunk_size ->
  (chunk_text fuel text chunk_size overlap = Some (Ok []) <-> strip text = []).
Proof.
  intros Hsize. unfold chunk_text. split.
  - destruct (falsy text || falsy (strip text)) eqn:Hblank;
      [intros _; apply blank_iff; exact Hblank|].
    intros H. exfalso.
    assert (Hne : strip text <> []).
    { intros E. apply blank_iff in E. congruence. }
    destruct (normalize_nonblank text Hne) as (c & r & HT & Hc).
    remember (normalize text) as T eqn:HeqT. clear HeqT.
    destruct fuel as [|fuel]; [discriminate|]. cbn [chunk_loop] in H.
    assert (Hlen : 0 < len T) by (rewrite HT; unfold len; simpl; lia).
    destruct (Z.ltb_spec 0 (len T)); [|lia].
    destruct (chunk_iter T chunk_size overlap 0 []) as [[start' acc']|] eqn:Hit;
      [|discriminate].
    apply chunk_iter_inv in Hit. destruct Hit as (e & He & _ & ->).
    apply (window_end_bounds T chunk_size Hsize) in He; [|lia].
    assert (Hchunk : strip (slice T 0 e) <> []).
    { intros E. apply strip_nil_iff, ink_nil_iff in E.
      pose proof (firstn_slice T 0 e ltac:(lia) ltac:(lia)) as Hf.
      simpl in Hf. rewrite Hf in E.
      destruct (Z.to_nat e) as [|n] eqn:En; [lia|].
      rewrite HT in E. simpl in E. rewrite Hc in E. discriminate. }
    destruct (strip (slice T 0 e)) as [|x xs] eqn:E; [contradiction|].
    cbn [falsy app] in H.
    apply chunk_loop_extends in H. destruct H as (more & H). discriminate.
  - intros H. apply blank_iff in H. rewrite H. reflexivity.
Qed.

(** X5. [chunk_text] returns the empty list exactly when the text is empty or
    holds only whitespace. *)
Theorem no_chunks_iff_blank
    (fuel : nat) (text : pystr) (chunk_size overlap : Z) :
  0 < chunk_size ->
  (chunk_text fuel text chunk_size overlap = Some (Ok []) <-> strip text = []).
Proof. apply chunk_text_nil_iff. Qed.

(** With no overlap the windows abut: the loop stops when
    [start] reaches the end of the text, having kept every non-whitespace
    character before [start] once and in order. *)
Lemma zero_overlap_content (T : pystr) (chunk_size : Z) (fuel : nat) :
  0 < chunk_size ->
  forall (start : Z) (acc cs : list pystr),
  0 <= start <= len T ->
  ink (List.concat acc) = ink (firstn (Z.to_nat start) T) ->
  chunk_loop fuel T chunk_size 0 start acc = Some (Ok cs) ->
  ink (List.concat cs) = ink T.
Proof.
  intros Hsize. induction fuel as [|fuel IH]; intros start acc cs Hs Hacc H;
    simpl in H; [discriminate|].
  destruct (Z.ltb_spec start (len T)) as [Hlt|Hge].
  - destruct (chunk_iter T chunk_size 0 start acc) as [[start' acc']|] eqn:Hit;
      [|discriminate].
    apply chunk_iter_inv in Hit. destruct Hit as (e & He & -> & ->).
    apply (window_end_bounds T chunk_size Hsize) in He; [|lia].
    assert (Hstart' : (if e <? len T then e - 0 else e) = e)
      by (destruct (e <? len T); lia).
    rewrite Hstart' in H.
    eapply IH; [| |exact H]; [lia|].
    rewrite <- (firstn_slice T start e) by lia.
    rewrite ink_app, <- Hacc, <- (ink_strip (slice T start e)).
    destruct (strip (slice T start e)) eqn:E; simpl.
    + rewrite app_nil_r. reflexivity.
    + rewrite concat_app, ink_app. simpl. rewrite app_nil_r. reflexivity.
  - inversion H; subst. rewrite Hacc.
    replace (Z.to_nat start) with (List.length T) by (unfold len in *; lia).
    rewrite firstn_all. reflexivity.
Qed.

Lemma window_step_pos (chunk_size : Z) : 0 < chunk_size -> 0 < window_step chunk_size.
Proof.
  intros H. pose proof (int_mul_0_7_nonneg chunk_size H).
  unfold window_step. lia.
Qed.

(** X6. With [overlap = 0] the function returns for every text and every
    positive size, and the chunks hold the non-whitespace characters of
    the text, each once and in order. *)
Theorem zero_overlap_keeps_every_character (text : pystr) (chunk_size : Z) :
  0 < chunk_size ->
  exists fuel cs,
    chunk_text fuel text chunk_size 0 = Some (Ok cs)
    /\ ink (List.concat cs) = ink text.
Proof.
  intros Hsize.
  destruct (chunk_text_terminates text chunk_size 0 Hsize
              ltac:(pose proof (window_step_pos chunk_size Hsize); lia))
    as (fuel & cs & H & _).
  exists fuel, cs. split; [exact H|].
  unfold chunk_text in H.
  destruct (falsy text || falsy (strip text)) eqn:Hblank.
  - inversion H. simpl. symmetry.
    apply ink_nil_iff, strip_nil_iff, blank_iff. exact Hblank.
  - apply (zero_overlap_content _ _ _ Hsize) in H.
    + rewrite H. unfold normalize. rewrite ink_strip. apply ink_sub_ws.
    + pose proof (len_nonneg (normalize text)). lia.
    + reflexivity.
Qed.

(** X7. For every chunk size and overlap the sliders of [app.py] offer,
    [chunk_text] returns, with at most one chunk per 52 characters of the
    normalised text, plus one. *)
Theorem slider_settings_terminate (text : pystr) (chunk_size overlap : Z) :
  300 <= chunk_size <= 1500 ->
  0 <= overlap <= 200 ->
  exists fuel cs,
    chunk_text fuel text chunk_size overlap = Some (Ok cs)
    /\ len cs <= len (normalize text) / 52 + 1.
Proof.
  intros Hsize Hov.
  assert (Hstep : 52 <= window_step chunk_size - overlap)
    by (unfold window_step; lia).
  destruct (chunk_text_terminates text chunk_size overlap ltac:(lia) ltac:(lia))
    as (fuel & cs & H & Hcount).
  exists fuel, cs. split; [exact H|].
  assert (len (normalize text) / (window_step chunk_size - overlap)
          <= len (normalize text) / 52).
  { apply Z.div_le_compat_l; [apply len_nonneg|lia]. }
  lia.
Qed.

End ChunkerExtras.

(** ** Page locator: the page of a match *)

Lemma getitem_nth {A : Type} (s : list A) (i : nat) (a : A) :
  nth_error s i = Some a -> getitem s (Z.of_nat i) = Ok a.
Proof.
  intros H. unfold getitem.
  assert (Hi : (i < List.length s)%nat) by (apply nth_error_Some; congruence).
  destruct (Z.ltb_spec (Z.of_nat i) 0); [lia|].
  destruct (Z.leb_spec 0 (Z.of_nat i)); [|lia].
  destruct (Z.ltb_spec (Z.of_nat i) (len s)); [|unfold len in *; lia].
  simpl. rewrite Nat2Z.id, H. reflexivity.
Qed.

Section PageOfMatch.
Import PageLocator.
Context {U : Unicode}.

(** The matches are found in strictly increasing offset order. *)
Lemma scan_markers_split (s : pystr) :
  forall (skip : nat) (off : Z) (pre post : list (Z * list N))
         (m : Z * list N),
  scan_markers skip off s = pre ++ m :: post ->
  (forall p, In p pre -> fst p < fst m)
  /\ (forall q, In q post -> fst m < fst q).
Proof.
  induction s as [|c s IH]; intros skip off pre post m H; simpl in H.
  - destruct pre; discriminate.
  - destruct skip as [|k]; [|eapply IH; eauto].
    destruct (match_marker (c :: s)) as [[ds l]|]; [|eapply IH; eauto].
    pose proof (scan_markers_facts s (l - 1) (off + 1)) as Hoff.
    rewrite Forall_forall in Hoff.
    destruct pre as [|p pre]; simpl in H; inversion H; subst.
    + split; [intros p []|]. intros q Hq. apply Hoff in Hq. simpl. lia.
    + match goal with E : scan_markers _ _ _ = _ |- _ =>
        pose proof (IH _ _ _ _ _ E) as [Hpre Hpost];
        rewrite E in Hoff end.
      split; [|exact Hpost].
      intros p [<-|Hp]; [|apply Hpre; exact Hp].
      simpl. specialize (Hoff m ltac:(apply in_or_app; right; left; reflexivity)).
      lia.
Qed.

Lemma page_markers_split (full_text : pystr) (pre post : list (Z * Z))
    (o n : Z) :
  page_markers full_text = pre ++ (o, n) :: post ->
  (forall p, In p pre -> fst p < o) /\ (forall q, In q post -> o < fst q).
Proof.
  unfold page_markers, page_matches. intros H.
  apply map_eq_app in H. destruct H as (pre' & tl & E & <- & Htl).
  apply map_eq_cons in Htl. destruct Htl as (m & post' & -> & Hm & <-).
  destruct (scan_markers_split _ _ _ _ _ _ E) as [Hpre Hpost].
  assert (Ho : o = fst m) by (unfold marker_value in Hm; inversion Hm; reflexivity).
  rewrite Ho.
  split; intros p Hp; apply in_map_iff in Hp; destruct Hp as (x & <- & Hx);
    simpl; auto.
Qed.

Lemma interval_loop_at (pre post : list (Z * Z)) (o n pos : Z) :
  (forall p, In p pre -> fst p < o) ->
  o <= pos ->
  (forall q, In q post -> pos < fst q) ->
  forall (cnt i : nat),
  (i <= List.length pre)%nat ->
  (i + cnt = List.length pre + List.length post)%nat ->
  interval_loop (pre ++ (o, n) :: post) pos (Z.of_nat i) cnt
  = Ok (match post with [] => None | _ :: _ => Some n end).
Proof.
  intros Hpre Ho Hpost. induction cnt as [|cnt IH]; intros i Hi Hcnt.
  - destruct post; [reflexivity|simpl in Hcnt; lia].
  - cbn [interval_loop].
    replace (Z.of_nat i + 1) with (Z.of_nat (S i)) by lia.
    destruct (Nat.eq_dec i (List.length pre)) as [->|Hne].
    + destruct post as [|q post]; [simpl in Hcnt; lia|].
      rewrite (getitem_nth _ _ (o, n))
        by (rewrite nth_error_app2, Nat.sub_diag by lia; reflexivity).
      rewrite (getitem_nth _ _ q).
      2:{ rewrite nth_error_app2 by lia.
          replace (S (List.length pre) - List.length pre)%nat with 1%nat by lia.
          reflexivity. }
      cbn [bind fst snd].
      destruct (Z.leb_spec o pos); [|lia].
      destruct (Z.ltb_spec pos (fst q));
        [reflexivity|specialize (Hpost q (or_introl eq_refl)); lia].
    + destruct (nth_error (pre ++ (o, n) :: post) i) as [p|] eqn:Ep.
      2:{ apply nth_error_None in Ep. rewrite length_app in Ep. simpl in Ep. lia. }
      destruct (nth_error (pre ++ [(o, n)]) (S i)) as [q|] eqn:Eq.
      2:{ apply nth_error_None in Eq. rewrite length_app in Eq. simpl in Eq. lia. }
      assert (Eq' : nth_error (pre ++ (o, n) :: post) (S i) = Some q).
      { change (pre ++ (o, n) :: post) with (pre ++ [(o, n)] ++ post).
        rewrite app_assoc, nth_error_app1; [exact Eq|].
        rewrite length_app. simpl. lia. }
      rewrite (getitem_nth _ _ _ Ep), (getitem_nth _ _ _ Eq').
      cbn [bind].
      assert (Hq : fst q <= o).
      { apply nth_error_In in Eq. apply in_app_or in Eq.
        destruct Eq as [Hin|[<-|[]]]; [apply Hpre in Hin; lia|simpl; lia]. }
      destruct (Z.ltb_spec pos (fst q)); [lia|].
      rewrite andb_false_r. apply IH; lia.
Qed.

(** The page is that of the marker block the match falls in. *)
Lemma estimate_page_at_split (chunk_text full_text : pystr)
    (pre post : list (Z * Z)) (o n : Z) :
  markers_convert full_text ->
  page_markers full_text = pre ++ (o, n) :: post ->
  o <= find full_text chunk_text ->
  (forall q, In q post -> find full_text chunk_text < fst q) ->
  estimate_page chunk_text full_text = n.
Proof.
  intros Hconv Hpages Ho Hpost.
  destruct (page_markers_split _ _ _ _ _ Hpages) as [Hpre _].
  assert (Ho0 : 0 <= o).
  { pose proof (page_markers_facts full_text) as Hall.
    rewrite Hpages in Hall. rewrite Forall_forall in Hall.
    specialize (Hall (o, n) ltac:(apply in_or_app; right; left; reflexivity)).
    simpl in Hall. lia. }
  unfold estimate_page, estimate_page_try.
  rewrite (page_list_ok _ Hconv), Hpages. cbn [bind].
  assert (Hfalsy : falsy (pre ++ (o, n) :: post) = false)
    by (destruct pre; reflexivity).
  rewrite Hfalsy.
  destruct (Z.ltb_spec (find full_text chunk_text) 0); [lia|].
  replace (Z.to_nat (len (pre ++ (o, n) :: post) - 1))
    with (List.length pre + List.length post)%nat
    by (unfold len; rewrite length_app; simpl; lia).
  rewrite (interval_loop_at pre post o n _ Hpre Ho Hpost _ 0%nat) by lia.
  cbn [bind]. destruct post as [|q post]; [|reflexivity].
  rewrite (getitem_minus_one _ (o, n)) by (destruct pre; discriminate).
  cbn [bind]. rewrite last_last. reflexivity.
Qed.

(** X8. When every marker of [full_text] has at most 4300 digits, so that
    [int] converts it, and [chunk_text] occurs in [full_text] at or after
    some marker, [estimate_page] returns the number of the last marker at
    or before the first occurrence. *)
Theorem estimate_page_is_last_marker_before_match
    (chunk_text full_text : pystr) (o n : Z) :
  markers_convert full_text ->
  In (o, n) (page_markers full_text) ->
  o <= find full_text chunk_text ->
  (forall q, In q (page_markers full_text) ->
             fst q <= find full_text chunk_text -> fst q <= o) ->
  estimate_page chunk_text full_text = n.
Proof.
  intros Hconv Hin Ho Hlast.
  destruct (in_split _ _ Hin) as (pre & post & Hpages).
  apply (estimate_page_at_split _ _ pre post o n Hconv Hpages Ho).
  destruct (page_markers_split _ _ _ _ _ Hpages) as [_ Hpost].
  intros q Hq.
  destruct (Z.lt_ge_cases (find full_text chunk_text) (fst q)) as [|Hle];
    [assumption|].
  assert (Hq' : In q (page_markers full_text))
    by (rewrite Hpages; apply in_or_app; right; right; exact Hq).
  specialize (Hlast q Hq' Hle). specialize (Hpost q Hq). lia.
Qed.

End PageOfMatch.

(** ** Extraction and page location together *)

Lemma startswith_before_separator (p b rest : pystr) (sep : char) :
  ~ In sep p ->
  startswith p (b ++ sep :: rest) = true -> startswith p b = true.
Proof.
  revert b. induction p as [|a p IH]; intros b Hsep H; [reflexivity|].
  destruct b as [|x b]; simpl in H |- *.
  - apply andb_true_iff in H. destruct H as [H _]. apply N.eqb_eq in H.
    subst. contradiction Hsep. left. reflexivity.
  - apply andb_true_iff in H. destruct H as [Hx H].
    rewrite Hx. simpl. apply IH; [|exact H].
    intros Hin. apply Hsep. right. exact Hin.
Qed.

Lemma uint_chars_nil (d : Decimal.uint) : Extractor.uint_chars d = [] -> d = Decimal.Nil.
Proof. destruct d; simpl; [reflexivity|discriminate..]. Qed.

Lemma format_nat_nonempty (n : nat) : Extractor.format_nat n <> [].
Proof.
  unfold Extractor.format_nat. intros H. apply uint_chars_nil in H.
  pose proof (DecimalNat.Unsigned.of_to n) as Hn. rewrite H in Hn.
  destruct n; [discriminate H|discriminate Hn].
Qed.

Lemma digit_values_of_uint (d : Decimal.uint) :
  forall acc : nat,
  fold_left (fun a x => 10 * a + x)%N
            (map (fun c => c - 48)%N (Extractor.uint_chars d)) (N.of_nat acc)
  = N.of_nat (Nat.of_uint_acc d acc).
Proof.
  induction d; intros acc;
    cbn [Extractor.uint_chars map fold_left Nat.of_uint_acc]; [reflexivity|..];
    rewrite <- IHd; f_equal; rewrite Nat.tail_mul_spec; lia.
Qed.

Section ExtractedPdf.
Import Extractor PageLocator.
Context {U : Unicode}.
Hypothesis Hdigits : ascii_digits U.

Lemma take_digits_uint (d : Decimal.uint) (y : pystr) :
  take_digits (uint_chars d ++ 93%N :: y)
  = (map (fun c => c - 48)%N (uint_chars d), 93%N :: y).
Proof.
  induction d; simpl;
    [rewrite decimal_bracket; reflexivity|..];
    match goal with
    | |- context [decimal ?c] =>
        rewrite (Hdigits (c - 48)%N eq_refl : decimal c = Some (c - 48)%N)
    end;
    rewrite IHd; reflexivity.
Qed.

Lemma page_block_app (n : nat) (t rest : pystr) :
  page_block n t ++ rest
  = str "[PAGE " ++ format_nat n ++ 93%N :: 10%N :: t ++ 10%N :: rest.
Proof.
  unfold page_block. rewrite <- !app_assoc. reflexivity.
Qed.

Lemma len_page_block (n : nat) (t : pystr) :
  len (page_block n t) = 6 + len (format_nat n) + 2 + len t + 1.
Proof.
  unfold page_block, len. rewrite !length_app.
  change (List.length (str "[PAGE ")) with 6%nat.
  change (List.length (str "]")) with 1%nat.
  change (List.length [10%N]) with 1%nat. lia.
Qed.

(** The digits of the marker of page [n]. *)
Lemma digits_value_format_nat (n : nat) :
  digits_value (map (fun c => (c - 48)%N) (format_nat n)) = Z.of_nat n.
Proof.
  unfold digits_value, format_nat.
  change 0%N with (N.of_nat 0).
  rewrite (digit_values_of_uint (Nat.to_uint n) 0).
  fold (Nat.of_uint (Nat.to_uint n)).
  rewrite DecimalNat.Unsigned.of_to. lia.
Qed.

Lemma match_marker_block (n : nat) (t rest : pystr) :
  match_marker (page_block n t ++ rest)
  = Some (map (fun c => (c - 48)%N) (format_nat n),
          (6 + List.length (format_nat n) + 1)%nat).
Proof.
  rewrite page_block_app. unfold match_marker.
  assert (Hstart : startswith (str "[PAGE ")
            (str "[PAGE " ++ format_nat n ++ 93%N :: 10%N :: t ++ 10%N :: rest)
          = true) by (apply startswith_iff; eauto).
  rewrite Hstart.
  change (skipn 6 (str "[PAGE " ++ format_nat n ++ 93%N :: 10%N :: t ++ 10%N :: rest))
    with (format_nat n ++ 93%N :: 10%N :: t ++ 10%N :: rest).
  unfold format_nat at 1. rewrite take_digits_uint. fold (format_nat n).
  pose proof (format_nat_nonempty n) as Hne.
  destruct (map (fun c => (c - 48)%N) (format_nat n)) as [|v vs] eqn:Ev.
  - apply map_eq_nil in Ev. contradiction.
  - rewrite N.eqb_refl. rewrite <- Ev. rewrite length_map. reflexivity.
Qed.

Lemma scan_markers_skip (u s : pystr) :
  forall off,
  scan_markers (List.length u) off (u ++ s) = scan_markers 0 (off + len u) s.
Proof.
  induction u as [|c u IH]; intros off.
  - unfold len. simpl. rewrite Z.add_0_r. reflexivity.
  - simpl. rewrite IH. f_equal. unfold len. simpl List.length. lia.
Qed.

Lemma match_marker_none (s : pystr) :
  startswith (str "[PAGE ") s = false -> match_marker s = None.
Proof. unfold match_marker. intros ->. reflexivity. Qed.

(** No marker starts inside a text that does not hold ["[PAGE "]. *)
Lemma scan_markers_text (t rest : pystr) :
  ~ occurs_in (str "[PAGE ") t ->
  forall off,
  scan_markers 0 off (t ++ 10%N :: rest)
  = scan_markers 0 (off + len t) (10%N :: rest).
Proof.
  induction t as [|c t IH]; intros Hno off.
  - unfold len. simpl List.length. rewrite Z.add_0_r. reflexivity.
  - assert (Hhead : startswith (str "[PAGE ") ((c :: t) ++ 10%N :: rest) = false).
    { destruct (startswith _ _) eqn:E; [|reflexivity].
      apply startswith_before_separator in E.
      - apply startswith_iff in E. destruct E as [post E].
        contradiction Hno. exists [], post. exact E.
      - vm_compute. intuition discriminate. }
    change ((c :: t) ++ 10%N :: rest) with (c :: (t ++ 10%N :: rest)) in *.
    cbn [scan_markers]. rewrite (match_marker_none _ Hhead).
    rewrite IH.
    + replace (off + 1 + len t) with (off + len (c :: t))
        by (unfold len; simpl List.length; lia).
      reflexivity.
    + intros (pre & post & E). apply Hno. exists (c :: pre), post.
      rewrite E. reflexivity.
Qed.

(** The block of a page is found as one marker, at the start of the
    block. *)
Lemma scan_markers_block (n : nat) (t rest : pystr) (off : Z) :
  ~ occurs_in (str "[PAGE ") t ->
  scan_markers 0 off (page_block n t ++ rest)
  = (off, map (fun c => (c - 48)%N) (format_nat n))
    :: scan_markers 0 (off + len (page_block n t)) rest.
Proof.
  intros Hno.
  pose proof (match_marker_block n t rest) as Hm.
  rewrite len_page_block.
  rewrite page_block_app in *.
  change (str "[PAGE " ++ format_nat n ++ 93%N :: 10%N :: t ++ 10%N :: rest)
    with (91%N :: (str "PAGE " ++ format_nat n ++ 93%N :: 10%N :: t ++ 10%N :: rest))
    in *.
  cbn [scan_markers]. rewrite Hm. f_equal.
  replace (str "PAGE " ++ format_nat n ++ 93%N :: 10%N :: t ++ 10%N :: rest)
    with ((str "PAGE " ++ format_nat n ++ [93%N]) ++ 10%N :: t ++ 10%N :: rest)
    by (rewrite <- !app_assoc; reflexivity).
  replace (6 + List.length (format_nat n) + 1 - 1)%nat
    with (List.length (str "PAGE " ++ format_nat n ++ [93%N]))
    by (rewrite !length_app; simpl; lia).
  rewrite scan_markers_skip.
  cbn [scan_markers].
  rewrite (match_marker_none (10%N :: t ++ 10%N :: rest)) by reflexivity.
  rewrite (scan_markers_text t rest Hno).
  cbn [scan_markers].
  rewrite (match_marker_none (10%N :: rest)) by reflexivity.
  f_equal. rewrite !len_app. unfold len. simpl List.length. lia.
Qed.

(** When no page raises, the loop returns what [pdf_written] describes. *)
Lemma pdf_loop_written (pages : list (option pystr)) :
  forall (n : nat) (text : pystr),
  pdf_loop n (map Ok pages) text = Ok (pdf_written n pages text).
Proof.
  induction pages as [|e pages IH]; intros n text; [reflexivity|].
  cbn [map pdf_loop pdf_written bind]. apply IH.
Qed.

Lemma extract_pdf_text_written (pages : list (option pystr)) :
  extract_pdf_text pages = pdf_written 1 pages [].
Proof.
  unfold extract_pdf_text, extract_text_pdf. cbn [bind].
  rewrite pdf_loop_written. reflexivity.
Qed.

Lemma pdf_written_acc (pages : list (option pystr)) :
  forall (n : nat) (text : pystr),
  pdf_written n pages text = text ++ pdf_written n pages [].
Proof.
  induction pages as [|e pages IH]; intros n text; cbn [pdf_written].
  - rewrite app_nil_r. reflexivity.
  - rewrite IH. rewrite (IH _ (match e with
                                 | Some t => if falsy t then [] else [] ++ page_block n t
                                 | None => []
                                 end)).
    destruct e as [[|c t]|]; cbn [falsy];
      rewrite ?app_nil_l, ?app_nil_r, <- ?app_assoc; reflexivity.
Qed.


(** The markers of an extracted PDF, followed by any text [rest], are the
    blocks the loop wrote and then the markers of [rest]. *)
Lemma scan_markers_pdf (pages : list (option pystr)) (rest : pystr) :
  (forall t, In (Some t) pages -> ~ occurs_in (str "[PAGE ") t) ->
  forall (n : nat) (off : Z),
  map marker_value (scan_markers 0 off (pdf_written n pages [] ++ rest))
  = marker_table n off pages
    ++ map marker_value
         (scan_markers 0 (off + len (pdf_written n pages [])) rest).
Proof.
  induction pages as [|e pages IH]; intros Hno n off.
  - unfold len. simpl. rewrite Z.add_0_r. reflexivity.
  - assert (Hno' : forall t, In (Some t) pages -> ~ occurs_in (str "[PAGE ") t)
      by (intros t Ht; apply Hno; right; exact Ht).
    cbn [pdf_written marker_table]. rewrite pdf_written_acc.
    destruct e as [[|c t]|]; cbn [falsy]; rewrite ?app_nil_l.
    + apply IH. exact Hno'.
    + rewrite <- app_assoc, scan_markers_block
        by (apply Hno; left; reflexivity).
      cbn [map]. unfold marker_value at 1. cbn [fst snd].
      rewrite digits_value_format_nat.
      rewrite IH by exact Hno'. rewrite len_app, Z.add_assoc. reflexivity.
    + apply IH. exact Hno'.
Qed.



(** X9. Markers round trip: the markers [estimate_page] reads back from the
    text [extract_text] wrote are the pages that have text, each with its
    number and with the offset of its block, provided no page text holds
    ["[PAGE "] itself. *)
Theorem markers_of_extracted_pdf (pages : list (option pystr)) :
  (forall t, In (Some t) pages -> ~ occurs_in (str "[PAGE ") t) ->
  page_markers (extract_pdf_text pages) = marker_table 1 0 pages.
Proof.
  intros Hno. unfold page_markers, page_matches.
  rewrite extract_pdf_text_written.
  pose proof (scan_markers_pdf pages [] Hno 1 0) as H.
  rewrite !app_nil_r in H. exact H.
Qed.


End ExtractedPdf.

(** ** Hybrid ranker: what [search] returns *)

Lemma StronglySorted_app_inv {A : Type} (R : A -> A -> Prop) (a b : list A) :
  StronglySorted R (a ++ b) -> StronglySorted R a /\ StronglySorted R b.
Proof.
  induction a as [|x a IH]; simpl; intros H.
  - split; [constructor|exact H].
  - inversion H as [|? ? Hs Hall]; subst.
    destruct (IH Hs) as [Ha Hb]. split; [|exact Hb].
    constructor; [exact Ha|].
    apply Forall_app in Hall. tauto.
Qed.

Lemma StronglySorted_slice {A : Type} (R : A -> A -> Prop) (s : list A) (a b : Z) :
  StronglySorted R s -> StronglySorted R (slice s a b).
Proof.
  intros H. unfold slice.
  set (lo := Z.to_nat (clamp_index (len s) a)).
  set (n := Z.to_nat (clamp_index (len s) b - clamp_index (len s) a)).
  rewrite <- (firstn_skipn lo s) in H.
  apply StronglySorted_app_inv in H. destruct H as [_ H].
  rewrite <- (firstn_skipn n (skipn lo s)) in H.
  apply StronglySorted_app_inv in H. tauto.
Qed.

Lemma insert_desc_sorted (x : pystr * Q) (l : list (pystr * Q)) :
  StronglySorted (fun a b => (snd b <= snd a)%Q) l ->
  StronglySorted (fun a b => (snd b <= snd a)%Q) (Ranker.insert_desc x l).
Proof.
  induction l as [|y l IH]; simpl; intros H.
  - constructor; constructor.
  - inversion H as [|? ? Hs Hall]; subst.
    destruct (Ranker.Qltb (snd x) (snd y)) eqn:E.
    + apply Qltb_lt in E. constructor; [apply IH; exact Hs|].
      apply Forall_forall. intros z Hz. apply In_insert_desc in Hz.
      destruct Hz as [->|Hz]; [apply Qlt_le_weak; exact E|].
      rewrite Forall_forall in Hall. apply Hall. exact Hz.
    + apply Qltb_ge in E. constructor; [exact H|].
      constructor; [exact E|].
      eapply Forall_impl; [|exact Hall]. simpl. intros z Hz.
      eapply Qle_trans; eauto.
Qed.

Lemma sorted_desc_sorted (l : list (pystr * Q)) :
  StronglySorted (fun a b => (snd b <= snd a)%Q) (Ranker.sorted_desc l).
Proof.
  induction l as [|x l IH]; simpl; [constructor|].
  apply insert_desc_sorted. exact IH.
Qed.

Section RankerExtras.
Import Ranker.
Context {U : Unicode} {C : Collaborators}.

(** X14. The results are in descending order of score. *)
Theorem results_sorted_by_score (query : pystr) (index : Index) (k : Z)
    (results : list (pystr * Q)) :
  search query index k = Ok results ->
  StronglySorted (fun a b => (snd b <= snd a)%Q) results.
Proof.
  intros H. apply search_spec in H.
  destruct H as (combined & pool & final & _ & _ & _ & ->).
  apply StronglySorted_slice, sorted_desc_sorted.
Qed.

(** X13. At most [k] results are returned. *)
Theorem results_at_most_k (query : pystr) (index : Index) (k : Z)
    (results : list (pystr * Q)) :
  0 <= k ->
  search query index k = Ok results ->
  len results <= k.
Proof.
  intros Hk H. apply search_spec in H.
  destruct H as (combined & pool & final & _ & _ & _ & ->).
  pose proof (slice_len_le (sorted_desc (filter above_threshold final)) 0 k Hk).
  lia.
Qed.

Lemma search_results_in_chunks (query : pystr) (index : Index) (k : Z)
    (results : list (pystr * Q)) :
  search query index k = Ok results ->
  Forall (fun r => In (fst r) (chunks index)) results.
Proof.
  intros H. apply search_spec in H.
  destruct H as (combined & pool & final & _ & Hpool & Hfinal & ->).
  apply Forall_forall. intros r Hr.
  apply In_slice, In_sorted_desc, filter_In in Hr. destruct Hr as [Hr _].
  destruct (Forall2_In_right _ _ _ Hfinal r Hr) as (c & Hc & Hfst & _).
  destruct (Forall2_In_right _ _ _ Hpool c Hc) as (idx & _ & Hnth & _).
  rewrite Hfst. eapply nth_error_In. exact Hnth.
Qed.

(** X15. Every returned text is a chunk of the index, unchanged. *)
Theorem results_are_index_chunks (query : pystr) (index : Index) (k : Z)
    (results : list (pystr * Q)) :
  search query index k = Ok results ->
  Forall (fun r => In (fst r) (chunks index)) results.
Proof. apply search_results_in_chunks. Qed.

Lemma matvec_ok (E : list (list Q)) (v : list Q) :
  (forall row, In row E -> List.length row = List.length v) ->
  exists out, matvec E v = Ok out /\ List.length out = List.length E.
Proof.
  induction E as [|row E IH]; intros Hrows; simpl.
  - exists []. auto.
  - rewrite (Hrows row (or_introl eq_refl)), Nat.eqb_refl.
    destruct IH as (out & -> & Hlen); [intros r Hr; apply Hrows; right; exact Hr|].
    simpl. eexists. split; [reflexivity|]. simpl. congruence.
Qed.

Lemma rank_loop_ok (query : pystr) (index : Index) (combined : list Q)
    (idxs : list nat) :
  (forall idx, In idx idxs ->
     (idx < List.length (chunks index))%nat /\ (idx < List.length combined)%nat) ->
  forall acc, exists res, rank_loop query index combined idxs acc = Ok res.
Proof.
  induction idxs as [|idx idxs IH]; intros Hin acc; simpl; [eauto|].
  destruct (Hin idx (or_introl eq_refl)) as [Hc Hs].
  destruct (nth_error (chunks index) idx) eqn:Ec;
    [|apply nth_error_None in Ec; lia].
  destruct (nth_error combined idx) eqn:Es;
    [|apply nth_error_None in Es; lia].
  apply IH. intros i Hi. apply Hin. right. exact Hi.
Qed.

(** X12. On an index that [build_index] built, a query that is not blank is
    always answered: no step of [search] raises, provided the model gives
    vectors of one dimension and [argsort] gives positions of its
    argument. *)
Theorem search_succeeds_on_built_index
    (chunk_list : list pystr) (index : Index) (query : pystr) (k : Z) :
  (forall s t, List.length (encode s) = List.length (encode t)) ->
  (forall xs, Forall (fun i => (i < List.length xs)%nat) (argsort xs)) ->
  build_index chunk_list = Ok index ->
  strip query <> [] ->
  exists results, search query index k = Ok results.
Proof.
  intros Hdim Hargsort Hbuild Hquery.
  apply build_index_ok in Hbuild. destruct Hbuild as [Hne ->].
  assert (Hfalsy : falsy chunk_list = false)
    by (destruct chunk_list; [contradiction|reflexivity]).
  rename chunk_list into cs.
  unfold search.
  destruct (falsy query || falsy (strip query)) eqn:Hblank;
    [apply blank_iff in Hblank; contradiction|].
  destruct (matvec_ok (map (fun c => normalized (encode c)) cs)
              (normalized (encode query))) as (sem & Hsem & Hsemlen).
  { intros row Hrow. apply in_map_iff in Hrow. destruct Hrow as (c & <- & _).
    unfold normalized. rewrite !length_map. apply Hdim. }
  rewrite length_map in Hsemlen.
  unfold combined_scores, semantic_scores, lexical_scores, get_scores.
  cbn [embeddings bm25 chunks corpus].
  rewrite Hsem. cbn [bind].
  set (raw := map (bm25_score (map split cs) (split (lower query))) (map split cs)).
  assert (Hrawlen : List.length raw = List.length cs)
    by (unfold raw; rewrite !length_map; reflexivity).
  destruct raw as [|x raw'] eqn:Eraw;
    [destruct cs; [discriminate Hfalsy|discriminate Hrawlen]|].
  cbn [array_max bind]. rewrite <- Eraw.
  set (lex := if Qltb 0 (fold_left Qmax raw' x)
              then map (fun y => (y / fold_left Qmax raw' x)%Q) raw else raw).
  assert (Hlexlen : List.length lex = List.length cs).
  { unfold lex. destruct (Qltb 0 _); rewrite ?length_map; rewrite Eraw;
      exact Hrawlen. }
  unfold array_add. rewrite !length_map, Hsemlen, Hlexlen, Nat.eqb_refl.
  cbn [bind].
  set (combined := map (fun p => (fst p + snd p)%Q)
                       (combine (map (Qmult SEMANTIC_WEIGHT) sem)
                                (map (Qmult BM25_WEIGHT) lex))).
  assert (Hcomblen : List.length combined = List.length cs).
  { unfold combined. rewrite length_map, length_combine, !length_map. lia. }
  destruct (rank_loop_ok query
              {| embeddings := map (fun c => normalized (encode c)) cs;
                 bm25 := BM25Okapi (map split cs);
                 chunks := cs |}
              combined (top_k_idx combined k)) with (acc := @nil (pystr * Q))
    as (res & Hres).
  { intros idx Hidx. unfold top_k_idx in Hidx.
    apply In_slice, in_rev in Hidx.
    pose proof (Hargsort combined) as Hall. rewrite Forall_forall in Hall.
    apply Hall in Hidx. cbn [chunks]. lia. }
  rewrite Hres. cbn [bind]. eauto.
Qed.

End RankerExtras.

(** ** The pipeline of [app.py]: chunk, index, search *)

Section Pipeline.
Import Chunker Ranker.
Context {U : Unicode} {C : Collaborators}.

(** X17. [build_index] on the chunks of a document raises its
    ["No chunks to index"] error exactly when the document is empty or
    holds only whitespace. *)
Theorem blank_document_cannot_be_indexed
    (fuel : nat) (text : pystr) (chunk_size overlap : Z) (cs : list pystr) :
  0 < chunk_size ->
  chunk_text fuel text chunk_size overlap = Some (Ok cs) ->
  (build_index cs = Raise (ValueError "No chunks to index") <-> strip text = []).
Proof.
  intros Hsize Hcs.
  rewrite <- (chunk_text_nil_iff fuel text chunk_size overlap Hsize), Hcs.
  unfold build_index. destruct cs as [|c cs]; cbn [falsy].
  - split; reflexivity.
  - destruct (new_BM25Okapi _) as [b|e] eqn:E; cbn [bind];
      [split; discriminate|].
    unfold new_BM25Okapi in E. destruct (forallb _ _); inversion E.
    split; discriminate.
Qed.

(** X18. Whatever [search] returns on the index of a document is a contiguous
    piece of the normalised text of that document. *)
Theorem results_are_pieces_of_the_document
    (fuel : nat) (text : pystr) (chunk_size overlap : Z) (cs : list pystr)
    (index : Index) (query : pystr) (k : Z) (results : list (pystr * Q)) :
  chunk_text fuel text chunk_size overlap = Some (Ok cs) ->
  build_index cs = Ok index ->
  search query index k = Ok results ->
  Forall (fun r => occurs_in (fst r) (normalize text)) results.
Proof.
  intros Hcs Hindex Hsearch.
  apply build_index_aligned in Hindex. destruct Hindex as (_ & Hchunks & _).
  apply search_results_in_chunks in Hsearch. rewrite Hchunks in Hsearch.
  assert (Hall : Forall (fun c => occurs_in c (normalize text)) cs).
  { unfold chunk_text in Hcs. destruct (falsy text || falsy (strip text)).
    - inversion Hcs. constructor.
    - revert Hcs. apply chunk_loop_Forall; [|constructor].
      intros a b _.
      eapply occurs_in_trans; [apply strip_occurs_in|apply slice_occurs_in]. }
  rewrite Forall_forall in Hall, Hsearch |- *.
  intros r Hr. apply Hall, Hsearch. exact Hr.
Qed.

End Pipeline.

(** ** The boost on returned results *)

Section BoostBounds.
Import Ranker.
Context {U : Unicode} {C : Collaborators}.

(** X16. When the semantic scores lie in [-1, 1], every result [search]
    returns stands for a position of the candidate pool: its chunk is the
    chunk the index holds there, and its score is at least the fused
    score [s] at that position and at most 1, and is [s] itself when the
    chunk is no definition chunk. The boost never lowers the score of a
    returned result. *)
Theorem boost_never_lowers_a_returned_score
    (query : pystr) (index : Index) (k : Z) (sem : list Q)
    (results : list (pystr * Q)) :
  semantic_scores query index = Ok sem ->
  Forall (fun s => (-1 <= s <= 1)%Q) sem ->
  search query index k = Ok results ->
  exists combined,
    combined_scores query index = Ok combined
    /\ Forall (fun r => exists (idx : nat) (s : Q),
                 In idx (top_k_idx combined k)
                 /\ nth_error (chunks index) idx = Some (fst r)
                 /\ nth_error combined idx = Some s
                 /\ (s <= snd r <= 1)%Q
                 /\ (is_definition_chunk (fst r) query = false -> snd r = s))
              results.
Proof.
  intros Hsem Hrange Hsearch.
  apply search_spec in Hsearch.
  destruct Hsearch as (combined & pool & final & Hc & Hpool & Hfinal & ->).
  exists combined. split; [exact Hc|].
  pose proof (combined_scores_le_one _ _ _ _ Hsem Hrange Hc) as Hle.
  apply Forall_forall. intros r Hr.
  apply In_slice, In_sorted_desc, filter_In in Hr.
  destruct Hr as [Hin Hthr]. apply Qltb_lt in Hthr.
  destruct (Forall2_In_right _ _ _ Hfinal r Hin)
    as (c & Hcin & Hfst & Hyes & Hno).
  destruct (Forall2_In_right _ _ _ Hpool c Hcin) as (idx & Hidx & Hchunk & Hs).
  exists idx, (snd c). rewrite Hfst.
  split; [exact Hidx|]. split; [exact Hchunk|]. split; [exact Hs|].
  specialize (Hle _ (nth_error_In _ _ Hs)).
  destruct (is_definition_chunk (fst c) query) eqn:Hd.
  - apply is_definition_chunk_iff in Hd. destruct (Hyes Hd) as (Heq & _ & _).
    rewrite Heq in *. split; [|discriminate].
    pose proof (Q.le_min_r (snd c * (13 # 10)) 1) as Hr1.
    destruct (Q.min_spec (snd c * (13 # 10)) 1) as [[_ Hm]|[_ Hm]];
      rewrite Hm in *; lra.
  - assert (Hn : ~ has_definition_pattern (fst c) query).
    { intros Hp. apply is_definition_chunk_iff in Hp. congruence. }
    rewrite (Hno Hn) in *. split; [lra|reflexivity].
Qed.

End BoostBounds.

(** ** Extraction: a PDF without text *)

Section EmptyPdf.
Import Extractor.

Lemma page_block_nonempty (n : nat) (t : pystr) : page_block n t <> [].
Proof. unfold page_block. discriminate. Qed.

Lemma pdf_written_nil_iff (pages : list (option pystr)) :
  forall n,
  pdf_written n pages [] = []
  <-> Forall (fun e => e = None \/ e = Some []) pages.
Proof.
  induction pages as [|e pages IH]; intros n; cbn [pdf_written].
  - split; [constructor|reflexivity].
  - destruct e as [[|c t]|]; cbn [falsy]; rewrite ?app_nil_l.
    + rewrite IH. split; [intros H; constructor; auto|].
      intros H. inversion H. assumption.
    + split.
      * intros H. rewrite pdf_written_acc in H.
        apply app_eq_nil in H. destruct H as [H _].
        contradiction (page_block_nonempty n (c :: t)).
      * intros H. inversion H as [|? ? [E|E] _]; discriminate.
    + rewrite IH. split; [intros H; constructor; auto|].
      intros H. inversion H. assumption.
Qed.

(** A page that raises ends the loop with an exception. *)
Lemma pdf_loop_raises (pages : list (outcome (option pystr))) (e : exn) :
  In (Raise e) pages ->
  forall n text, exists e', pdf_loop n pages text = Raise e'.
Proof.
  induction pages as [|p pages IH]; intros Hin n text; [contradiction|].
  cbn [pdf_loop]. destruct p as [x|e0]; [|eexists; reflexivity].
  cbn [bind]. apply IH. destruct Hin as [Hp|Hin]; [discriminate|exact Hin].
Qed.

(** Either a page raises or every page yields its text. *)
Lemma pages_raise_or_yield (pages : list (outcome (option pystr))) :
  (exists e, In (Raise e) pages) \/ exists texts, pages = map Ok texts.
Proof.
  induction pages as [|p pages IH]; [right; exists []; reflexivity|].
  destruct p as [x|e]; [|left; exists e; left; reflexivity].
  destruct IH as [[e He]|[texts ->]].
  - left. exists e. right. exact He.
  - right. exists (x :: texts). reflexivity.
Qed.

Lemma Forall_yield_empty (texts : list (option pystr)) :
  Forall (fun e => e = None \/ e = Some []) texts
  <-> Forall (fun p => p = Ok None \/ p = Ok (Some [])) (map Ok texts).
Proof.
  rewrite Forall_map. split; apply Forall_impl; intros e [H|H].
  - left. rewrite H. reflexivity.
  - right. rewrite H. reflexivity.
  - left. inversion H. reflexivity.
  - right. inversion H. reflexivity.
Qed.

(** X11. [extract_text] returns the empty string for a PDF exactly when
    opening the file raises, or the extraction of one of its pages
    raises, or every page yields [None] or an empty string; and nothing
    of such a file can be chunked. *)
Theorem pdf_without_text_yields_nothing
    (file : outcome (list (outcome (option pystr))))
    (fuel : nat) (chunk_size overlap : Z) :
  (extract_text_pdf file = []
   <-> (exists e, file = Raise e)
       \/ (exists pages,
             file = Ok pages
             /\ ((exists e, In (Raise e) pages)
                 \/ Forall (fun p => p = Ok None \/ p = Ok (Some [])) pages)))
  /\ (extract_text_pdf file = [] ->
      Chunker.chunk_text fuel (extract_text_pdf file) chunk_size overlap
      = Some (Ok [])).
Proof.
  split; [|intros ->; reflexivity].
  destruct file as [pages|e].
  2:{ split; [intros _; left; eexists; reflexivity|reflexivity]. }
  unfold extract_text_pdf. cbn [bind].
  destruct (pages_raise_or_yield pages) as [[e He]|[texts ->]].
  - destruct (pdf_loop_raises pages e He 1%nat []) as [e' ->].
    split; [|reflexivity].
    intros _. right. exists pages. split; [reflexivity|].
    left. exists e. exact He.
  - rewrite pdf_loop_written, pdf_written_nil_iff, Forall_yield_empty.
    split.
    + intros H. right. eexists. split; [reflexivity|]. right. exact H.
    + intros [[e He]|(pages & Hp & [[e He]|H])].
      * discriminate.
      * inversion Hp; subst pages. apply in_map_iff in He.
        destruct He as (x & Hx & _). discriminate.
      * inversion Hp; subst pages. exact H.
Qed.

End EmptyPdf.

(** ** The further properties on sample inputs *)

Lemma ascii_digits_stub : ascii_digits Stub.ascii_unicode.
Proof.
  intros d Hd.
  assert (Hcases : (d = 0 \/ d = 1 \/ d = 2 \/ d = 3 \/ d = 4 \/ d = 5
                    \/ d = 6 \/ d = 7 \/ d = 8 \/ d = 9)%N) by lia.
  repeat (destruct Hcases as [->|Hcases]; [reflexivity|]).
  subst. reflexivity.
Qed.

Lemma fake_encode_dimension (s t : pystr) :
  List.length (Stub.fake_encode s) = List.length (Stub.fake_encode t).
Proof.
  unfold Stub.fake_encode. destruct (Z.even (len s)), (Z.even (len t)); reflexivity.
Qed.

Lemma In_insert_idx (xs : list Q) (i j : nat) (l : list nat) :
  In j (Stub.insert_idx xs i l) -> j = i \/ In j l.
Proof.
  induction l as [|h l IH]; simpl.
  - intros [<-|[]]. left. reflexivity.
  - destruct (Ranker.Qltb _ _); simpl; intuition.
Qed.

Lemma insertion_argsort_in_range (xs : list Q) :
  Forall (fun i => (i < List.length xs)%nat) (Stub.insertion_argsort xs).
Proof.
  unfold Stub.insertion_argsort.
  assert (H : forall (todo acc : list nat) j,
             In j (fold_left (fun l i => Stub.insert_idx xs i l) todo acc) ->
             In j todo \/ In j acc).
  { induction todo as [|i todo IH]; intros acc j Hj; simpl in Hj; [auto|].
    apply IH in Hj. destruct Hj as [Hj|Hj]; [left; right; exact Hj|].
    apply In_insert_idx in Hj. destruct Hj as [->|Hj]; [left; left|right]; auto. }
  apply Forall_forall. intros j Hj. apply H in Hj.
  destruct Hj as [Hj|[]]. apply in_seq in Hj. lia.
Qed.

Lemma not_occurs_by_search (p s : pystr) :
  contains p s = false -> ~ occurs_in p s.
Proof. intros H Ho. apply contains_iff in Ho. congruence. Qed.

Section ExtraRuns.
Import Chunker PageLocator Extractor Ranker Stub.

Lemma chunks_are_trimmed_and_single_spaced_witness :
  Forall (fun c => no_edge_space c = true
                   /\ only_plain_spaces c = true
                   /\ no_space_runs c = true)
         spaced_chunks.
Proof.
  apply (chunks_are_trimmed_and_single_spaced 9 spaced_text 16 3). run.
Defined.

Lemma chunks_occur_in_normalized_text_witness :
  Forall (fun c => occurs_in c (normalize spaced_text)) spaced_chunks.
Proof.
  apply (chunks_occur_in_normalized_text 9 spaced_text 16 3). run.
Defined.

Lemma short_text_is_one_chunk_witness :
  chunk_text 2 spaced_text 500 150 = Some (Ok [normalize spaced_text]).
Proof.
  apply (short_text_is_one_chunk 0 spaced_text 500 150).
  - vm_compute. discriminate.
  - vm_compute. discriminate.
Defined.

Lemma no_chunks_iff_blank_witness :
  chunk_text 0 [32%N; 9%N; 10%N] 500 150 = Some (Ok []).
Proof.
  apply (no_chunks_iff_blank 0 [32%N; 9%N; 10%N] 500 150).
  - lia.
  - run.
Defined.

Lemma zero_overlap_keeps_every_character_witness :
  exists fuel cs,
    chunk_text fuel spaced_text 16 0 = Some (Ok cs)
    /\ ink (List.concat cs) = ink spaced_text.
Proof.
  apply (zero_overlap_keeps_every_character spaced_text 16). lia.
Defined.

Lemma slider_settings_terminate_witness :
  exists fuel cs,
    chunk_text fuel spaced_text 500 150 = Some (Ok cs)
    /\ len cs <= len (normalize spaced_text) / 52 + 1.
Proof.
  apply (slider_settings_terminate spaced_text 500 150); lia.
Defined.

Lemma estimate_page_is_last_marker_before_match_witness :
  estimate_page (str "Beta text.") marked_text = 2.
Proof.
  apply (estimate_page_is_last_marker_before_match
           (str "Beta text.") marked_text 21 2).
  - apply markers_convert_check. run.
  - vm_compute. right. left. reflexivity.
  - vm_compute. discriminate.
  - vm_compute. intros q [<-|[<-|[]]] _; discriminate.
Defined.

Lemma sample_pdf_pages_clean :
  forall t, In (Some t) sample_pdf_pages -> ~ occurs_in (str "[PAGE ") t.
Proof.
  intros t [E|[E|[E|[E|[]]]]]; inversion E; subst;
    apply not_occurs_by_search; reflexivity.
Qed.

Lemma markers_of_extracted_pdf_witness :
  page_markers (extract_pdf_text sample_pdf_pages) = [(0, 1); (21, 4)].
Proof.
  apply (markers_of_extracted_pdf ascii_digits_stub sample_pdf_pages).
  exact sample_pdf_pages_clean.
Defined.


Lemma results_sorted_by_score_witness :
  StronglySorted (fun a b => (snd b <= snd a)%Q) sample_results.
Proof.
  apply (results_sorted_by_score sample_query sample_index 5 sample_results).
  run.
Defined.

Lemma results_at_most_k_witness : len sample_results <= 5.
Proof.
  apply (results_at_most_k sample_query sample_index 5 sample_results).
  - lia.
  - run.
Defined.

Lemma results_are_index_chunks_witness :
  Forall (fun r => In (fst r) (chunks sample_index)) sample_results.
Proof.
  apply (results_are_index_chunks sample_query sample_index 5 sample_results).
  run.
Defined.

Lemma search_succeeds_on_built_index_witness :
  exists results, search sample_query sample_index 5 = Ok results.
Proof.
  apply (search_succeeds_on_built_index sample_chunks sample_index sample_query 5).
  - exact fake_encode_dimension.
  - exact insertion_argsort_in_range.
  - run.
  - vm_compute. discriminate.
Defined.

Lemma blank_document_cannot_be_indexed_witness :
  build_index [] = Raise (ValueError "No chunks to index").
Proof.
  apply (blank_document_cannot_be_indexed 0 [32%N; 9%N; 10%N] 500 150 []).
  - lia.
  - run.
  - run.
Defined.

Lemma results_are_pieces_of_the_document_witness :
  spaced_results <> []
  /\ Forall (fun r => occurs_in (fst r) (normalize spaced_text)) spaced_results.
Proof.
  split; [discriminate|].
  apply (results_are_pieces_of_the_document 9 spaced_text 16 3 spaced_chunks
           spaced_index (str "cat") 5 spaced_results).
  - run.
  - run.
  - run.
Defined.

Lemma boost_never_lowers_a_returned_score_witness :
  exists combined,
    combined_scores sample_query sample_index = Ok combined
    /\ Forall (fun r => exists (idx : nat) (s : Q),
                 In idx (top_k_idx combined 5)
                 /\ nth_error (chunks sample_index) idx = Some (fst r)
                 /\ nth_error combined idx = Some s
                 /\ (s <= snd r <= 1)%Q
                 /\ (is_definition_chunk (fst r) sample_query = false ->
                     snd r = s))
              sample_results.
Proof.
  apply (boost_never_lowers_a_returned_score sample_query sample_index 5
           sample_semantic sample_results).
  - run.
  - repeat constructor; vm_compute; discriminate.
  - run.
Defined.

Lemma pdf_without_text_yields_nothing_witness :
  chunk_text 0
    (extract_text_pdf
       (Ok [Ok (Some (str "first page")); Raise (LibraryError "damaged page")]))
    500 150
  = Some (Ok []).
Proof.
  apply (proj2 (pdf_without_text_yields_nothing
                  (Ok [Ok (Some (str "first page"));
                       Raise (LibraryError "damaged page")]) 0 500 150)).
  reflexivity.
Defined.

End ExtraRuns.
